(** * pytket-pyquil: the Forest backends

    A shallow embedding of [pytket/extensions/pyquil/backends/forest.py]:
    the shot-based [ForestBackend], the state-based [ForestStateBackend],
    their job cache, status reporting, result retrieval and compilation
    pipelines.

    Python objects that are mutated in place ([self._cache], the QAM) are
    threaded through an explicit state; a raised exception is a value of
    [Exn] returned together with the state reached when it was raised. *)

From Stdlib Require Import ZArith List String Lia.
From stdpp Require Import base option list gmap strings sorting.


Local Open Scope Z_scope.

(** ** Operation types, unit identifiers, circuits *)

Module OpType.
Inductive t : Type :=
| CZ | Rx | Ry | Rz | Measure | Barrier | ISWAP
| X | Y | Z | H | S | T | CX | CCX | CU1 | U1 | SWAP
| Other (name : string).

#[global] Instance eq_dec : EqDecision t.
Proof. solve_decision. Defined.
End OpType.

(** A pytket [UnitID]: a register name and a multi-dimensional index.
    [Qubit] and [Bit] are both unit identifiers. *)
Record UnitID : Type := mkUnitID { reg_name : string; index : list nat }.

#[global] Instance UnitID_eq_dec : EqDecision UnitID.
Proof. solve_decision. Defined.

Abbreviation Qubit := UnitID (only parsing).
Abbreviation Bit := UnitID (only parsing).

Record Command : Type := mkCommand { op : OpType.t; args : list UnitID }.

(** The Pauli letters of [pytket.pauli.Pauli]. *)
Inductive Pauli : Type := Pauli_I | Pauli_X | Pauli_Y | Pauli_Z.

(** ** Exceptions *)

(** The exceptions [forest.py] raises itself, plus [ExternalError] for
    whatever a collaborator (pyquil, the QVM, the pytket base class) raises. *)
Inductive Exn (Handle : Type) : Type :=
| CircuitNotRunError (h : Handle)
| PyQuilJobStatusUnavailable
| ValueError (msg : string)
| AssertionError
| IndexError
| ExternalError (msg : string).
Arguments CircuitNotRunError {Handle} h.
Arguments PyQuilJobStatusUnavailable {Handle}.
Arguments ValueError {Handle} msg.
Arguments AssertionError {Handle}.
Arguments IndexError {Handle}.
Arguments ExternalError {Handle} msg.

Inductive Exc (Handle A : Type) : Type :=
| Ok (a : A)
| Raise (e : Exn Handle).
Arguments Ok {Handle A} a.
Arguments Raise {Handle A} e.

(** A method of an object with mutable state [St]: it returns a value or
    raises, and leaves a state behind in both cases. *)
Definition M (Handle St A : Type) : Type := St → Exc Handle A * St.

Definition ret {Handle St A} (a : A) : M Handle St A := λ st, (Ok a, st).
Definition raise {Handle St A} (e : Exn Handle) : M Handle St A :=
  λ st, (Raise e, st).
Definition bind {Handle St A B}
    (m : M Handle St A) (k : A → M Handle St B) : M Handle St B :=
  λ st, match m st with
        | (Ok a, st') => k a st'
        | (Raise e, st') => (Raise e, st')
        end.
(** An exception-raising computation that does not touch the state. *)
Definition lift {Handle St A} (x : Exc Handle A) : M Handle St A :=
  λ st, (x, st).
Definition modify {Handle St} (f : St → St) : M Handle St unit :=
  λ st, (Ok tt, f st).
Definition get {Handle St} : M Handle St St := λ st, (Ok st, st).

Declare Scope py_scope.
Delimit Scope py_scope with py.
Notation "'let*' x := m 'in' k" := (bind m (λ x, k))
  (at level 61, x pattern, m at level 100, k at level 200) : py_scope.

(** Pure exception chaining, for code that raises before it touches state. *)
Definition exc_bind {Handle A B}
    (x : Exc Handle A) (k : A → Exc Handle B) : Exc Handle B :=
  match x with Ok a => k a | Raise e => Raise e end.

Fixpoint exc_mapM {Handle A B} (f : A → Exc Handle B) (l : list A)
  : Exc Handle (list B) :=
  match l with
  | [] => Ok []
  | a :: l' =>
      exc_bind (f a) (λ b, exc_bind (exc_mapM f l') (λ bs, Ok (b :: bs)))
  end.

(** ** Status values *)

Inductive StatusEnum : Type := COMPLETED | RUNNING | SUBMITTED.

Record CircuitStatus : Type := mkCircuitStatus { status : StatusEnum }.

(** [_STATUS_MAP] *)
Definition _STATUS_MAP (s : string) : option StatusEnum :=
  if decide (s = "done")%string then Some COMPLETED
  else if decide (s = "running")%string then Some RUNNING
  else if decide (s = "loaded")%string then Some SUBMITTED
  else if decide (s = "connected")%string then Some SUBMITTED
  else None.

(** ** Arrays of readouts *)

(** A two-dimensional numpy array of bits: its shape and its rows. *)
Record ndarray : Type := mkNdarray {
  n_rows : nat;
  n_cols : nat;
  tolist : list (list bool)
}.

(** [a[:, idx]]: numpy integer-array indexing of the columns.  An index
    beyond the last column raises [IndexError]. *)
Definition take_columns {Handle} (a : ndarray) (idx : list nat)
  : Exc Handle ndarray :=
  if decide (Forall (λ i, (i < n_cols a)%nat) idx)
  then Ok {| n_rows := n_rows a;
             n_cols := length idx;
             tolist := map (λ row, map (λ i, nth i row false) idx) (tolist a) |}
  else Raise IndexError.

(** [OutcomeArray]: the table of outcomes and its width (the number of
    columns, [shape[-1]] of the readouts). *)
Record OutcomeArray : Type := mkOutcomeArray {
  readouts : list (list bool);
  width : nat
}.

(** [OutcomeArray.from_readouts] on at least one row: the width is the
    last dimension of the array made from the rows.  pytket refuses an
    empty list of rows with [ValueError] (the array made from it is not
    two-dimensional); this definition gives it the width 0, and what is
    proved of a width is proved for tables with a row. *)
Definition from_readouts (rows : list (list bool)) : OutcomeArray :=
  {| readouts := rows;
     width := match rows with [] => O | row :: _ => length row end |}.

(** [list.index]: the position of the first occurrence, or [ValueError]. *)
Fixpoint list_index {Handle} (l : list UnitID) (x : UnitID) : Exc Handle nat :=
  match l with
  | [] => Raise (ValueError "is not in list")
  | y :: l' =>
      if decide (y = x) then Ok O
      else exc_bind (list_index l' x) (λ i, Ok (S i))
  end.

(** [sorted] on a list of non-negative integers. *)
Definition sorted (l : list nat) : list nat := merge_sort Nat.le l.

(** ** Numbers and symbolic expressions *)

(** What a conversion such as [float(e)] does: it returns a value, raises
    [ValueError], or raises another exception. *)
Inductive Conversion (A : Type) : Type :=
| Converted (x : A)
| RaisesValueError
| RaisesOther (msg : string).
Arguments Converted {A} x.
Arguments RaisesValueError {A}.
Arguments RaisesOther {A} msg.

(** Python floats, numpy complex numbers and pytket's symbolic expressions
    are kept abstract: the backends only pass them to the operations below. *)
Class Numerics : Type := {
  Expr : Type;
  float : Type;
  complex : Type;
  (** [float(e)] *)
  float_of_Expr : Expr → Conversion float;
  np_pi : float;
  float_mul : float → float → float;
  (** [x * 1j] *)
  times_1j : float → complex;
  np_exp : complex → complex;
  complex_mul : complex → complex → complex;
  (** the literal [1.0] as a coefficient *)
  complex_one : complex;
}.

Section Data.
Context `{!Numerics}.

(** What the backends read of a pytket [Circuit]. *)
Record Circuit : Type := mkCircuit {
  qubits : list Qubit;
  bits : list Bit;
  commands : list Command;
  phase : Expr
}.

(** [circuit.n_gates_of_type(t)] *)
Definition n_gates_of_type (c : Circuit) (t : OpType.t) : nat :=
  length (filter (λ cmd, op cmd = t) (commands c)).

(** [BackendResult(...)] with the keyword arguments the backends pass. *)
Record BackendResult : Type := mkBackendResult {
  shots : option OutcomeArray;
  ppcirc : option Circuit;
  c_bits : option (list Bit);
  q_bits : option (list Qubit);
  state : option (list complex)
}.

(** [Backend.empty_result] of the pytket base class: [n_shots] rows of
    zeros, one column per bit of the circuit, over the default bits. *)
Definition empty_result (circuit : Circuit) (n_shots : nat) : BackendResult :=
  let n_bits := length (bits circuit) in
  let empty_readouts := replicate n_shots (replicate n_bits false) in
  {| shots := Some (from_readouts empty_readouts);
     ppcirc := None;
     c_bits := Some (map (λ i, mkUnitID "c" [i]) (seq 0 n_bits));
     q_bits := None;
     state := None |}.
End Data.

(** ** Compilation passes *)

Section Passes.
(** The device description is opaque to the backends. *)
Context (Architecture NodeErrors EdgeErrors : Type).

Inductive Placement : Type :=
| NaivePlacement (arch : Architecture)
| GraphPlacement (arch : Architecture)
| NoiseAwarePlacement
    (arch : Architecture) (node_errors : NodeErrors) (link_errors : EdgeErrors).

Inductive BasePass : Type :=
| DecomposeBoxes
| FlattenRegisters
| SynthesiseTket
| FullPeepholeOptimise
| CXMappingPass (arch : Architecture) (placer : Placement)
                (directed_cx delay_measures : bool)
| NaivePlacementPass (arch : Architecture)
| KAKDecomposition (allow_swaps : bool)
| CliffordSimp (allow_swaps : bool)
| AutoRebase (gateset : list OpType.t)
| EulerAngleReduction (p q : OpType.t)
| SequencePass (passlist : list BasePass).

(** The fields of [BackendInfo] the pipeline reads. *)
Record BackendInfo : Type := mkBackendInfo {
  architecture : Architecture;
  gate_set : list OpType.t;
  averaged_node_gate_errors : NodeErrors;
  averaged_edge_gate_errors : EdgeErrors
}.
End Passes.

Arguments NaivePlacement {_ _ _} arch.
Arguments GraphPlacement {_ _ _} arch.
Arguments NoiseAwarePlacement {_ _ _} arch node_errors link_errors.
Arguments DecomposeBoxes {_ _ _}.
Arguments FlattenRegisters {_ _ _}.
Arguments SynthesiseTket {_ _ _}.
Arguments FullPeepholeOptimise {_ _ _}.
Arguments CXMappingPass {_ _ _} arch placer directed_cx delay_measures.
Arguments NaivePlacementPass {_ _ _} arch.
Arguments KAKDecomposition {_ _ _} allow_swaps.
Arguments CliffordSimp {_ _ _} allow_swaps.
Arguments AutoRebase {_ _ _} gateset.
Arguments EulerAngleReduction {_ _ _} p q.
Arguments SequencePass {_ _ _} passlist.
Arguments mkBackendInfo {_ _ _} _ _ _ _.
Arguments architecture {_ _ _} _.
Arguments gate_set {_ _ _} _.
Arguments averaged_node_gate_errors {_ _ _} _.
Arguments averaged_edge_gate_errors {_ _ _} _.

(** The predicates of [pytket.predicates] the backends require. *)
Inductive Predicate (Architecture : Type) : Type :=
| NoClassicalControlPredicate
| NoFastFeedforwardPredicate
| NoMidMeasurePredicate
| NoSymbolsPredicate
| DefaultRegisterPredicate
| GateSetPredicate (gate_set : list OpType.t)
| ConnectivityPredicate (arch : Architecture).
Arguments NoClassicalControlPredicate {_}.
Arguments NoFastFeedforwardPredicate {_}.
Arguments NoMidMeasurePredicate {_}.
Arguments NoSymbolsPredicate {_}.
Arguments DefaultRegisterPredicate {_}.
Arguments GateSetPredicate {_} gate_set.
Arguments ConnectivityPredicate {_} arch.

(** ** Device discovery *)

(** [BackendInfo] as [_get_backend_info] builds it: the descriptive
    fields, and in [pipeline_info] the fields the pipeline and the
    predicates read.  The architecture and the full error tables are read
    from the characterisation with [.get], so they may be [None]. *)
Record DeviceInfo (Arch AllNodeErrors AllEdgeErrors AvgNodeErrors AvgEdgeErrors
                   : Type) : Type := mkDeviceInfo {
  name : string;
  device_name : string;
  version : string;
  all_node_gate_errors : option AllNodeErrors;
  all_edge_gate_errors : option AllEdgeErrors;
  pipeline_info : BackendInfo (option Arch) AvgNodeErrors AvgEdgeErrors
}.
Arguments mkDeviceInfo {_ _ _ _ _} _ _ _ _ _ _.
Arguments name {_ _ _ _ _} _.
Arguments device_name {_ _ _ _ _} _.
Arguments version {_ _ _ _ _} _.
Arguments all_node_gate_errors {_ _ _ _ _} _.
Arguments all_edge_gate_errors {_ _ _ _ _} _.
Arguments pipeline_info {_ _ _ _ _} _.

(** pyquil's device discovery and the characterisation helpers of
    [pyquil_convert], which [_get_backend_info] and [available_devices]
    call. *)
Class Devices (H : Type) : Type := {
  QuantumComputer : Type;
  (** the dictionary [process_characterisation] returns *)
  Characterisation : Type;
  Arch : Type;
  AllNodeErrors : Type;
  AllEdgeErrors : Type;
  AvgNodeErrors : Type;
  AvgEdgeErrors : Type;
  (** the values of keyword arguments *)
  KwValue : Type;
  (** [False] *)
  kw_False : KwValue;
  process_characterisation : QuantumComputer → Exc H Characterisation;
  (** [char_dict.get("Architecture")], [char_dict.get("NodeErrors")],
      [char_dict.get("EdgeErrors")] *)
  get_Architecture : Characterisation → option Arch;
  get_NodeErrors : Characterisation → option AllNodeErrors;
  get_EdgeErrors : Characterisation → option AllEdgeErrors;
  (** [get_avg_characterisation(char_dict)]: the values under
      ["node_errors"] and ["link_errors"] *)
  get_avg_characterisation :
    Characterisation → Exc H (AvgNodeErrors * AvgEdgeErrors);
  (** [qc.name] *)
  qc_name : QuantumComputer → string;
  __extension_version__ : string;
  (** [list_quantum_computers], given its keyword arguments, and
      [get_qc(name)] *)
  list_quantum_computers : gmap string KwValue → Exc H (list string);
  get_qc : string → Exc H QuantumComputer;
}.

(** ** The collaborators of the shot-based backend *)

(** [n_shots] as a caller passes it: [None], one integer, or a sequence. *)
Inductive NShots : Type :=
| NShotsNone
| NShotsInt (n : Z)
| NShotsSeq (ns : list (option Z)).

(** pyquil, the quantum computer behind [self._qc], the pytket helpers and
    the methods inherited from [pytket.backends.Backend].  [H] is the type
    of result handles of the backend that uses them. *)
Class Forest `{!Numerics} (H : Type) : Type := {
  Program : Type;
  Executable : Type;
  (** what [qam.execute] returns *)
  QAMExecutionResult : Type;
  (** the dictionary form of a post-processing circuit *)
  Json : Type;
  (** [prepare_circuit(circuit, allow_classical=False)] *)
  prepare_circuit : Circuit → Exc H (Circuit * Circuit);
  to_dict : Circuit → Json;
  from_dict : Json → Circuit;
  json_dumps : option Json → string;
  json_loads : string → Exc H (option Json);
  (** [SimplifyInitial(allow_classical=False, create_all_qubits=True,
      xcirc=_x_circ).apply(circuit)]: the circuit after the in-place rewrite *)
  SimplifyInitial_apply : Circuit → Circuit;
  (** [tk_to_pyquil(c0, return_used_bits=True)] *)
  tk_to_pyquil : Circuit → Exc H (Program * list Bit);
  wrap_in_numshots_loop : Program → nat → Program;
  native_quil_to_executable : Program → Exc H Executable;
  (** [qam.execute(ex)] with [qam.random_seed] set to the given seed *)
  qam_execute : option Z → Executable → Exc H QAMExecutionResult;
  (** [qam.get_result(pyquil_handle).readout_data["ro"]] *)
  qam_get_result_ro : QAMExecutionResult → Exc H (option ndarray);
  (** the successive values of [uuid4().int] *)
  uuid4 : nat → Z;
  (** [Backend._get_n_shots_as_list(n_shots, n, optional=False)] *)
  _get_n_shots_as_list : NShots → nat → Exc H (list nat);
  (** [Backend._check_all_circuits] *)
  _check_all_circuits : list Circuit → Exc H unit;
}.

(** ** ForestBackend *)

Module ForestBackend.

(** [_result_id_type = (int, str)] *)
Definition ResultHandle : Type := Z * string.

Section Backend.
Context `{!Numerics, !Forest ResultHandle}.

(** [_supports_shots], [_supports_counts], [_persistent_handles] *)
Definition _supports_shots : bool := true.
Definition _supports_counts : bool := true.
Definition _supports_contextual_optimisation : bool := true.
Definition _persistent_handles : bool := true.

Definition _GATE_SET : list OpType.t :=
  [OpType.CZ; OpType.Rx; OpType.Rz; OpType.Measure; OpType.Barrier;
   OpType.ISWAP].

(** An entry of [self._cache]: the keys ["handle"] and ["bit_indices"]
    are always written, ["result"] may be absent. *)
Record CacheEntry : Type := mkCacheEntry {
  handle : QAMExecutionResult;
  bit_indices : list nat;
  result : option BackendResult
}.

(** The mutable state a [ForestBackend] works on: its cache, the
    number of identifiers drawn so far, and a log of the calls made to
    the QAM ([qam_executed] for [execute], [qam_fetched] for
    [get_result]). *)
Record State : Type := mkState {
  _cache : gmap ResultHandle CacheEntry;
  uuid_drawn : nat;
  qam_executed : list Executable;
  qam_fetched : list QAMExecutionResult
}.

Definition init : State :=
  {| _cache := ∅; uuid_drawn := O; qam_executed := []; qam_fetched := [] |}.

Abbreviation Method := (M ResultHandle State).

Definition set_cache (f : gmap ResultHandle CacheEntry →
                          gmap ResultHandle CacheEntry) (st : State) : State :=
  {| _cache := f (_cache st); uuid_drawn := uuid_drawn st;
     qam_executed := qam_executed st; qam_fetched := qam_fetched st |}.

(** [uuid4().int] *)
Definition draw_uuid : Method Z :=
  λ st, (Ok (uuid4 (uuid_drawn st)),
         {| _cache := _cache st; uuid_drawn := S (uuid_drawn st);
            qam_executed := qam_executed st;
            qam_fetched := qam_fetched st |}).

(** [qam.execute(ex)] *)
Definition execute (seed : option Z) (ex : Executable)
  : Method QAMExecutionResult :=
  λ st, (qam_execute seed ex,
         {| _cache := _cache st; uuid_drawn := uuid_drawn st;
            qam_executed := qam_executed st ++ [ex];
            qam_fetched := qam_fetched st |}).

(** [qam.get_result(pyquil_handle).readout_data["ro"]] *)
Definition fetch (pyquil_handle : QAMExecutionResult)
  : Method (option ndarray) :=
  λ st, (qam_get_result_ro pyquil_handle,
         {| _cache := _cache st; uuid_drawn := uuid_drawn st;
            qam_executed := qam_executed st;
            qam_fetched := qam_fetched st ++ [pyquil_handle] |}).

(** The keyword arguments [process_circuits] reads. *)
Record Kwargs : Type := mkKwargs {
  seed : option Z;
  postprocess : bool;
  simplify_initial : bool
}.

(** The body of the loop of [process_circuits]. *)
Definition process_circuit (kw : Kwargs) (circuit : Circuit) (n_shots : nat)
  : Method ResultHandle :=
  (let* (c0, ppcirc_rep) :=
     lift (if postprocess kw
           then exc_bind (prepare_circuit circuit)
                  (λ '(c0, ppcirc), Ok (Some c0, Some (to_dict ppcirc)))
           else Ok (None, None)) in
   (* [SimplifyInitial] rewrites [circuit] in place; without
      post-processing [c0] is that same object *)
   let circuit :=
     if simplify_initial kw then SimplifyInitial_apply circuit
     else circuit in
   let c0 := default circuit c0 in
   let* (p, used_bits) := lift (tk_to_pyquil c0) in
   let* bit_indices := lift (exc_mapM (list_index (bits c0)) used_bits) in
   let p := wrap_in_numshots_loop p n_shots in
   let* ex := lift (native_quil_to_executable p) in
   let* pyquil_handle := execute (seed kw) ex in
   let* uuid := draw_uuid in
   let handle := (uuid, json_dumps ppcirc_rep) in
   let measures := n_gates_of_type circuit OpType.Measure in
   let* _ :=
     modify (set_cache
       (if decide (measures = O)
        then <[handle :=
                 {| handle := pyquil_handle;
                    bit_indices := sorted bit_indices;
                    result := Some (empty_result circuit n_shots) |}]>
        else <[handle :=
                 {| handle := pyquil_handle;
                    bit_indices := sorted bit_indices;
                    result := None |}]>)) in
   ret handle)%py.

Fixpoint process_loop (kw : Kwargs) (jobs : list (Circuit * nat))
  : Method (list ResultHandle) :=
  match jobs with
  | [] => ret []
  | (circuit, n_shots) :: jobs' =>
      (let* handle := process_circuit kw circuit n_shots in
       let* handle_list := process_loop kw jobs' in
       ret (handle :: handle_list))%py
  end.

Definition process_circuits (circuits : list Circuit) (n_shots : NShots)
    (valid_check : bool) (kw : Kwargs) : Method (list ResultHandle) :=
  (let* n_shots_list :=
     lift (_get_n_shots_as_list n_shots (length circuits)) in
   let* _ :=
     lift (if valid_check then _check_all_circuits circuits else Ok tt) in
   process_loop kw (zip circuits n_shots_list))%py.

(** [circuit_status] *)
Definition circuit_status (h : ResultHandle) : Method CircuitStatus :=
  (let* st := get in
   match _cache st !! h with
   | Some entry =>
       match result entry with
       | Some _ => ret (mkCircuitStatus COMPLETED)
       | None =>
           (* retrieving status is not supported yet *)
           raise PyQuilJobStatusUnavailable
       end
   | None => raise (CircuitNotRunError h)
   end)%py.

(** [Backend.get_result] of the pytket base class, which
    [super().get_result(handle)] calls: the cached result, or
    [CircuitNotRunError]. *)
Definition Backend_get_result (h : ResultHandle) : Method BackendResult :=
  (let* st := get in
   match _cache st !! h with
   | Some entry =>
       match result entry with
       | Some res => ret res
       | None => raise (CircuitNotRunError h)
       end
   | None => raise (CircuitNotRunError h)
   end)%py.

(** The handler of [get_result], entered on [CircuitNotRunError]. *)
Definition retrieve (h : ResultHandle) : Method BackendResult :=
  (let* st := get in
   match _cache st !! h with
   | None => raise (CircuitNotRunError h)
   | Some entry =>
       let pyquil_handle := handle entry in
       let* raw_shots := fetch pyquil_handle in
       match raw_shots with
       | None => raise (ValueError "Could not read job results in memory")
       | Some raw_shots =>
           (* Measurement results are returned even for unmeasured
              bits, so the shots table is filtered *)
           let* raw_shots :=
             lift (take_columns raw_shots (bit_indices entry)) in
           let shots := from_readouts (tolist raw_shots) in
           let* ppcirc_rep := lift (json_loads (snd h)) in
           let ppcirc := from_dict <$> ppcirc_rep in
           let res := {| shots := Some shots; ppcirc := ppcirc;
                         c_bits := None; q_bits := None; state := None |} in
           let* _ :=
             modify (set_cache (alter
               (λ e, {| handle := handle e;
                        bit_indices := bit_indices e;
                        result := Some res |}) h)) in
           ret res
       end
   end)%py.

(** [get_result] *)
Definition get_result (h : ResultHandle) : Method BackendResult :=
  λ st, match Backend_get_result h st with
        | (Ok res, st') => (Ok res, st')
        | (Raise (CircuitNotRunError _), st') => retrieve h st'
        | (Raise e, st') => (Raise e, st')
        end.

(** A result is cached for [h]. *)
Definition cached (st : State) (h : ResultHandle) : Prop :=
  ∃ entry res, _cache st !! h = Some entry ∧ result entry = Some res.

(** The identifier of [h] was drawn between the states [st] and [st']. *)
Definition drawn_between (st st' : State) (h : ResultHandle) : Prop :=
  ∃ k, (uuid_drawn st ≤ k < uuid_drawn st')%nat ∧ h.1 = uuid4 k.

(** *** Sessions: a caller's successive calls on one backend object *)

Inductive Call : Type :=
| ProcessCircuits (circuits : list Circuit) (n_shots : NShots)
                  (valid_check : bool) (kw : Kwargs)
| GetResult (h : ResultHandle)
| CircuitStatusOf (h : ResultHandle).

Inductive Return : Type :=
| Handles (r : Exc ResultHandle (list ResultHandle))
| Result (r : Exc ResultHandle BackendResult)
| Status (r : Exc ResultHandle CircuitStatus).

Definition call (c : Call) (st : State) : Return * State :=
  match c with
  | ProcessCircuits circuits n_shots valid_check kw =>
      let '(r, st') := process_circuits circuits n_shots valid_check kw st in
      (Handles r, st')
  | GetResult h => let '(r, st') := get_result h st in (Result r, st')
  | CircuitStatusOf h =>
      let '(r, st') := circuit_status h st in (Status r, st')
  end.

(** The calls of a session with what each returned, and the final state. *)
Fixpoint run (calls : list Call) (st : State)
  : list (Call * Return) * State :=
  match calls with
  | [] => ([], st)
  | c :: calls' =>
      let '(r, st1) := call c st in
      let '(trace, st2) := run calls' st1 in
      ((c, r) :: trace, st2)
  end.

(** The circuit as [process_circuits] counts its measurements: after
    [SimplifyInitial], when that was asked for. *)
Definition submitted (kw : Kwargs) (circuit : Circuit) : Circuit :=
  if simplify_initial kw then SimplifyInitial_apply circuit else circuit.

(** The circuit [process_circuits] hands to [tk_to_pyquil]: the one
    [prepare_circuit] made when post-processing was asked for, the
    submitted circuit itself otherwise. *)
Definition translated (kw : Kwargs) (circuit : Circuit)
  : Exc ResultHandle Circuit :=
  if postprocess kw
  then exc_bind (prepare_circuit circuit) (λ '(c0, _), Ok c0)
  else Ok (submitted kw circuit).

(** [entry] is what [process_circuits] writes for [circuit]: the sorted
    positions, among the bits of the translated circuit, of the bits
    [tk_to_pyquil] reports as used, and the empty result exactly when
    the circuit has no [Measure] gate. *)
Definition entry_written (kw : Kwargs) (circuit : Circuit) (n_shots : nat)
    (entry : CacheEntry) : Prop :=
  ∃ c0 p used_bits positions,
    translated kw circuit = Ok c0
    ∧ tk_to_pyquil c0 = Ok (p, used_bits)
    ∧ exc_mapM (Handle := ResultHandle) (list_index (bits c0)) used_bits
      = Ok positions
    ∧ bit_indices entry = sorted positions
    ∧ result entry
      = if decide (n_gates_of_type (submitted kw circuit)
                     OpType.Measure = O)
        then Some (empty_result (submitted kw circuit) n_shots)
        else None.

(** [h] was returned for [circuit] by a call of [process_circuits]
    recorded in the trace. *)
Definition issued_for (trace : list (Call * Return)) (h : ResultHandle)
    (kw : Kwargs) (circuit : Circuit) : Prop :=
  ∃ circuits n_shots valid_check handle_list i,
    (ProcessCircuits circuits n_shots valid_check kw,
     Handles (Ok handle_list)) ∈ trace
    ∧ circuits !! i = Some circuit ∧ handle_list !! i = Some h.

(** A call [get_result(h)] recorded in the trace returned a result. *)
Definition retrieved (trace : list (Call * Return)) (h : ResultHandle)
  : Prop :=
  ∃ res, (GetResult h, Result (Ok res)) ∈ trace.

End Backend.

Section Compilation.
Context {Architecture NodeErrors EdgeErrors : Type}.
Context {Handle : Type}.

Abbreviation Pass := (BasePass Architecture NodeErrors EdgeErrors).

(** [rebase_pass] *)
Definition rebase_pass : Pass :=
  AutoRebase [OpType.CZ; OpType.Rz; OpType.Rx].

(** [default_compilation_pass]; [info] is [self._backend_info]. *)
Definition default_compilation_pass
    (info : BackendInfo Architecture NodeErrors EdgeErrors)
    (optimisation_level : Z) : Exc Handle Pass :=
  if negb (bool_decide (0 ≤ optimisation_level < 3)) then Raise AssertionError
  else
    let passlist := [DecomposeBoxes; FlattenRegisters] in
    let passlist :=
      if decide (optimisation_level = 1) then passlist ++ [SynthesiseTket]
      else if decide (optimisation_level = 2)
           then passlist ++ [FullPeepholeOptimise]
           else passlist in
    let passlist :=
      passlist ++
      [CXMappingPass (architecture info)
         (NoiseAwarePlacement (architecture info)
            (averaged_node_gate_errors info)
            (averaged_edge_gate_errors info))
         false true] in
    let passlist := passlist ++ [NaivePlacementPass (architecture info)] in
    let passlist :=
      if decide (optimisation_level = 2)
      then (* Add some connectivity preserving optimisations after routing. *)
           passlist ++ [KAKDecomposition false; CliffordSimp false]
      else passlist in
    let passlist :=
      if decide (optimisation_level > 0) then passlist ++ [SynthesiseTket]
      else passlist in
    let passlist := passlist ++ [rebase_pass] in
    let passlist :=
      if decide (optimisation_level > 0)
      then passlist ++ [EulerAngleReduction OpType.Rx OpType.Rz]
      else passlist in
    Ok (SequencePass passlist).

(** [required_predicates]; [info] is [self.backend_info]. *)
Definition required_predicates
    (info : BackendInfo Architecture NodeErrors EdgeErrors)
  : list (Predicate Architecture) :=
  [NoClassicalControlPredicate;
   NoFastFeedforwardPredicate;
   NoMidMeasurePredicate;
   GateSetPredicate (gate_set info);
   ConnectivityPredicate (architecture info)].
End Compilation.

Section Discovery.
Context `{!Devices ResultHandle}.

(** [_get_backend_info]; [cls_name] is [cls.__name__]. *)
Definition _get_backend_info (cls_name : string) (qc : QuantumComputer)
  : Exc ResultHandle
      (DeviceInfo Arch AllNodeErrors AllEdgeErrors AvgNodeErrors AvgEdgeErrors) :=
  exc_bind (process_characterisation qc) (λ char_dict,
  let arch := get_Architecture char_dict in
  let node_errors := get_NodeErrors char_dict in
  let link_errors := get_EdgeErrors char_dict in
  exc_bind (get_avg_characterisation char_dict) (λ averaged_errors,
  Ok {| name := cls_name;
        device_name := qc_name qc;
        version := __extension_version__;
        all_node_gate_errors := node_errors;
        all_edge_gate_errors := link_errors;
        pipeline_info :=
          mkBackendInfo arch _GATE_SET averaged_errors.1 averaged_errors.2 |})).

(** The keyword arguments [available_devices] hands on: [qvms] is set
    to [False] when the caller did not give it. *)
Definition with_default_qvms (kwargs : gmap string KwValue)
  : gmap string KwValue :=
  if decide (is_Some (kwargs !! "qvms"%string)) then kwargs
  else <["qvms"%string := kw_False]> kwargs.

(** [available_devices] *)
Definition available_devices (cls_name : string) (kwargs : gmap string KwValue)
  : Exc ResultHandle
      (list (DeviceInfo Arch AllNodeErrors AllEdgeErrors
               AvgNodeErrors AvgEdgeErrors)) :=
  let kwargs := with_default_qvms kwargs in
  exc_bind (list_quantum_computers kwargs) (λ qc_name_list,
  exc_mapM (λ name, exc_bind (get_qc name) (_get_backend_info cls_name))
           qc_name_list).
End Discovery.
End ForestBackend.

(** ** The collaborators of the state-based backend *)

(** pyquil's [WavefunctionSimulator] and Pauli algebra, and the pytket
    helpers [ForestStateBackend] calls. *)
Class Wavefunction `{!Numerics} (H : Type) : Type := {
  QuilProgram : Type;
  (** pyquil's [PauliTerm] and [PauliSum] *)
  PauliTerm_t : Type;
  PauliSum_t : Type;
  (** [tk_to_pyquil(circuit)] *)
  tk_to_pyquil_program : Circuit → Exc H QuilProgram;
  (** [p + I(Qubit_(i))] *)
  add_identity : QuilProgram → nat → QuilProgram;
  (** [self._sim.wavefunction(p).amplitudes] *)
  sim_wavefunction : QuilProgram → Exc H (list complex);
  (** [self._sim.expectation(prog, [pauli_term])] and
      [self._sim.expectation(prog, pauli_sum)], converted by [complex(...)] *)
  sim_expectation_terms : QuilProgram → list PauliTerm_t → Exc H complex;
  sim_expectation_sum : QuilProgram → PauliSum_t → Exc H complex;
  (** [ID()], [PauliTerm(name, index)], [term * coeff], [term * term],
      [PauliSum(terms)] *)
  ID : PauliTerm_t;
  PauliTerm : string → Z → PauliTerm_t;
  PauliTerm_scale : PauliTerm_t → complex → PauliTerm_t;
  PauliTerm_mul : PauliTerm_t → PauliTerm_t → PauliTerm_t;
  PauliSum : list PauliTerm_t → PauliSum_t;
  (** [circuit.implicit_qubit_permutation()[qb]] *)
  implicit_qubit_permutation : Circuit → Qubit → Qubit;
  (** [sorted(qubits, reverse=True)] *)
  sorted_reverse : list Qubit → list Qubit;
  (** the successive values of [uuid4().int] *)
  state_uuid4 : nat → Z;
  (** [Backend._check_all_circuits] *)
  state_check_all_circuits : list Circuit → Exc H unit;
}.

(** [_default_q_index] *)
Definition _default_q_index {Handle} (q : Qubit) : Exc Handle Z :=
  if decide (reg_name q ≠ "q"%string ∨ length (index q) ≠ 1%nat)
  then Raise (ValueError "Non-default qubit register")
  else match index q with
       | i :: _ => Ok (Z.of_nat i)
       | [] => Raise IndexError
       end.

(** A qubit of the default register: named ["q"], with a one-dimensional
    index. *)
Definition in_default_register (q : Qubit) : Prop :=
  reg_name q = "q"%string ∧ length (index q) = 1%nat.

(** The index of a qubit of the default register. *)
Definition canonical_index (q : Qubit) : Z := Z.of_nat (hd O (index q)).

(** [Pauli.name] *)
Definition Pauli_name (p : Pauli) : string :=
  match p with
  | Pauli_I => "I" | Pauli_X => "X" | Pauli_Y => "Y" | Pauli_Z => "Z"
  end.

(** ** ForestStateBackend *)

Module ForestStateBackend.

(** [_result_id_type = (int,)] *)
Definition ResultHandle : Type := Z.

(** A [QubitPauliString]: the items of its [map], in iteration order. *)
Definition QubitPauliString : Type := list (Qubit * Pauli).

Section Backend.
Context `{!Numerics, !Wavefunction ResultHandle}.

Definition _supports_state : bool := true.
Definition _supports_expectation : bool := true.
Definition _expectation_allows_nonhermitian : bool := false.
Definition _persistent_handles : bool := false.

Definition _GATE_SET : list OpType.t :=
  [OpType.X; OpType.Y; OpType.Z; OpType.H; OpType.S; OpType.T;
   OpType.Rx; OpType.Ry; OpType.Rz; OpType.CZ; OpType.CX; OpType.CCX;
   OpType.CU1; OpType.U1; OpType.SWAP].

(** An entry of [self._cache]: [{"result": res}]. *)
Record CacheEntry : Type := mkCacheEntry { result : BackendResult }.

Record State : Type := mkState {
  _cache : gmap ResultHandle CacheEntry;
  uuid_drawn : nat
}.

Definition init : State := {| _cache := ∅; uuid_drawn := O |}.

Abbreviation Method := (M ResultHandle State).

(** [uuid4().int] *)
Definition draw_uuid : Method Z :=
  λ st, (Ok (state_uuid4 (uuid_drawn st)),
         {| _cache := _cache st; uuid_drawn := S (uuid_drawn st) |}).

(** [for qb in circuit.qubits: p += I(Qubit_(qb.index[0]))] *)
Fixpoint add_identities (p : QuilProgram) (qbs : list Qubit)
  : Exc ResultHandle QuilProgram :=
  match qbs with
  | [] => Ok p
  | qb :: qbs' =>
      match index qb with
      | i :: _ => add_identities (add_identity p i) qbs'
      | [] => Raise IndexError
      end
  end.

(** The [try] block of [process_circuits]: the amplitudes scaled by
    the global phase; left as they are, with a warning, when [float]
    raises [ValueError]; any other exception of [float] is not caught. *)
Definition adjust_phase (circuit : Circuit) (state : list complex)
  : Exc ResultHandle (list complex) :=
  match float_of_Expr (phase circuit) with
  | Converted phase =>
      let coeff := np_exp (times_1j (float_mul phase np_pi)) in
      Ok (map (λ amplitude, complex_mul amplitude coeff) state)
  | RaisesValueError =>
      (* warning: global phase is dependent on a symbolic parameter *)
      Ok state
  | RaisesOther msg => Raise (ExternalError msg)
  end.

(** The body of the loop of [process_circuits]. *)
Definition process_circuit (circuit : Circuit) : Method ResultHandle :=
  (let* p := lift (tk_to_pyquil_program circuit) in
   let* p := lift (add_identities p (qubits circuit)) in
   let* handle := draw_uuid in
   let* state := lift (sim_wavefunction p) in
   let* state := lift (adjust_phase circuit state) in
   let res_qubits :=
     map (implicit_qubit_permutation circuit)
         (sorted_reverse (qubits circuit)) in
   let res := {| shots := None; ppcirc := None; c_bits := None;
                 q_bits := Some res_qubits; state := Some state |} in
   let* _ :=
     modify (λ st, {| _cache := <[handle := {| result := res |}]> (_cache st);
                      uuid_drawn := uuid_drawn st |}) in
   ret handle)%py.

Fixpoint process_loop (circuits : list Circuit)
  : Method (list ResultHandle) :=
  match circuits with
  | [] => ret []
  | circuit :: circuits' =>
      (let* handle := process_circuit circuit in
       let* handle_list := process_loop circuits' in
       ret (handle :: handle_list))%py
  end.

Definition process_circuits (circuits : list Circuit) (valid_check : bool)
  : Method (list ResultHandle) :=
  (let* _ :=
     lift (if valid_check then state_check_all_circuits circuits
           else Ok tt) in
   process_loop circuits)%py.

(** [circuit_status] *)
Definition circuit_status (h : ResultHandle) : Method CircuitStatus :=
  (let* st := get in
   match _cache st !! h with
   | Some _ => ret (mkCircuitStatus COMPLETED)
   | None => raise (CircuitNotRunError h)
   end)%py.

(** [_gen_PauliTerm] *)
Fixpoint gen_factors (pauli_term : PauliTerm_t) (items : list (Qubit * Pauli))
  : Exc ResultHandle PauliTerm_t :=
  match items with
  | [] => Ok pauli_term
  | (q, p) :: items' =>
      exc_bind (_default_q_index q)
        (λ i, gen_factors
                (PauliTerm_mul pauli_term (PauliTerm (Pauli_name p) i))
                items')
  end.

Definition _gen_PauliTerm (term : QubitPauliString) (coeff : complex)
  : Exc ResultHandle PauliTerm_t :=
  gen_factors (PauliTerm_scale ID coeff) term.

(** [get_pauli_expectation_value]; the default [coeff] of
    [_gen_PauliTerm] is [1.0]. *)
Definition get_pauli_expectation_value
    (state_circuit : Circuit) (pauli : QubitPauliString)
  : Exc ResultHandle complex :=
  exc_bind (tk_to_pyquil_program state_circuit) (λ prog,
  exc_bind (_gen_PauliTerm pauli complex_one) (λ pauli_term,
  sim_expectation_terms prog [pauli_term])).

(** [get_operator_expectation_value]; [operator] lists the items of
    [operator._dict]. *)
Definition get_operator_expectation_value
    (state_circuit : Circuit)
    (operator : list (QubitPauliString * complex))
  : Exc ResultHandle complex :=
  exc_bind (tk_to_pyquil_program state_circuit) (λ prog,
  exc_bind (exc_mapM (λ '(term, coeff), _gen_PauliTerm term coeff) operator)
    (λ terms, sim_expectation_sum prog (PauliSum terms))).

(** *** Sessions: a caller's successive calls on one backend object *)

Inductive Call : Type :=
| ProcessCircuits (circuits : list Circuit) (valid_check : bool)
| CircuitStatusOf (h : ResultHandle).

Inductive Return : Type :=
| Handles (r : Exc ResultHandle (list ResultHandle))
| Status (r : Exc ResultHandle CircuitStatus).

Definition call (c : Call) (st : State) : Return * State :=
  match c with
  | ProcessCircuits circuits valid_check =>
      let '(r, st') := process_circuits circuits valid_check st in
      (Handles r, st')
  | CircuitStatusOf h =>
      let '(r, st') := circuit_status h st in (Status r, st')
  end.

Fixpoint run (calls : list Call) (st : State)
  : list (Call * Return) * State :=
  match calls with
  | [] => ([], st)
  | c :: calls' =>
      let '(r, st1) := call c st in
      let '(trace, st2) := run calls' st1 in
      ((c, r) :: trace, st2)
  end.

(** The product of the single-qubit factors of a Pauli string, each
    keyed by the canonical index of its qubit, times a coefficient. *)
Definition keyed_term (term : QubitPauliString) (coeff : complex)
  : PauliTerm_t :=
  foldl (λ pauli_term '(q, p),
           PauliTerm_mul pauli_term
             (PauliTerm (Pauli_name p) (canonical_index q)))
        (PauliTerm_scale ID coeff) term.

(** [h] was returned by a call of [process_circuits] recorded in the
    trace. *)
Definition issued (trace : list (Call * Return)) (h : ResultHandle)
  : Prop :=
  ∃ circuits valid_check handle_list,
    (ProcessCircuits circuits valid_check, Handles (Ok handle_list)) ∈ trace
    ∧ h ∈ handle_list.

(** [h] was returned for [circuit] by a call of [process_circuits]
    recorded in the trace. *)
Definition issued_for (trace : list (Call * Return)) (h : ResultHandle)
    (circuit : Circuit) : Prop :=
  ∃ circuits valid_check handle_list i,
    (ProcessCircuits circuits valid_check, Handles (Ok handle_list)) ∈ trace
    ∧ circuits !! i = Some circuit ∧ handle_list !! i = Some h.

(** The identifier [h] was drawn between the states [st] and [st']. *)
Definition drawn_between (st st' : State) (h : ResultHandle) : Prop :=
  ∃ k, (uuid_drawn st ≤ k < uuid_drawn st')%nat ∧ h = state_uuid4 k.

(** [entry] holds the result computed for [circuit]: the amplitudes the
    simulator gives for the translated circuit with an identity on every
    qubit, adjusted for the global phase, and the qubits in the order of
    the result. *)
Definition computed_entry (circuit : Circuit) (entry : CacheEntry) : Prop :=
  ∃ p0 p amplitudes state,
    tk_to_pyquil_program circuit = Ok p0
    ∧ add_identities p0 (qubits circuit) = Ok p
    ∧ sim_wavefunction p = Ok amplitudes
    ∧ adjust_phase circuit amplitudes = Ok state
    ∧ entry
      = {| result :=
             {| shots := None; ppcirc := None; c_bits := None;
                q_bits := Some (map (implicit_qubit_permutation circuit)
                                    (sorted_reverse (qubits circuit)));
                state := Some state |} |}.

(** The handles for which the loop of [process_circuits], run on [st],
    goes through a whole iteration, computing the state vector and
    storing it at once: one per circuit, up to the first circuit whose
    iteration raises. *)
Fixpoint stored_by_loop (circuits : list Circuit) (st : State)
  : list ResultHandle :=
  match circuits with
  | [] => []
  | circuit :: circuits' =>
      match process_circuit circuit st with
      | (Ok h, st') => h :: stored_by_loop circuits' st'
      | (Raise _, _) => []
      end
  end.

(** The same for a call: the loop is reached when the circuits pass
    the check, or no check is asked for. *)
Definition stored_by (c : Call) (st : State) : list ResultHandle :=
  match c with
  | ProcessCircuits circuits valid_check =>
      match (if valid_check then state_check_all_circuits circuits
             else Ok tt) with
      | Ok _ => stored_by_loop circuits st
      | Raise _ => []
      end
  | CircuitStatusOf _ => []
  end.

(** The same for the calls of a session, each run on the state the
    calls before it left. *)
Fixpoint stored_in_session (calls : list Call) (st : State)
  : list ResultHandle :=
  match calls with
  | [] => []
  | c :: calls' => stored_by c st ++ stored_in_session calls' (call c st).2
  end.

End Backend.

Section Compilation.
Context {Architecture NodeErrors EdgeErrors : Type}.
Context {Handle : Type}.

Abbreviation Pass := (BasePass Architecture NodeErrors EdgeErrors).

(** [rebase_pass] *)
Definition rebase_pass : Pass :=
  AutoRebase [OpType.CZ; OpType.Rz; OpType.Rx].

(** [default_compilation_pass] *)
Definition default_compilation_pass (optimisation_level : Z)
  : Exc Handle Pass :=
  if negb (bool_decide (0 ≤ optimisation_level < 3)) then Raise AssertionError
  else
    let passlist := [DecomposeBoxes; FlattenRegisters] in
    let passlist :=
      if decide (optimisation_level = 1) then passlist ++ [SynthesiseTket]
      else if decide (optimisation_level = 2)
           then passlist ++ [FullPeepholeOptimise]
           else passlist in
    let passlist := passlist ++ [rebase_pass] in
    let passlist :=
      if decide (optimisation_level > 0)
      then passlist ++ [EulerAngleReduction OpType.Rx OpType.Rz]
      else passlist in
    Ok (SequencePass passlist).

(** [required_predicates] *)
Definition required_predicates : list (Predicate Architecture) :=
  [NoClassicalControlPredicate;
   NoFastFeedforwardPredicate;
   NoMidMeasurePredicate;
   NoSymbolsPredicate;
   GateSetPredicate _GATE_SET;
   DefaultRegisterPredicate].
End Compilation.
End ForestStateBackend.

(** ** A test target

    A stand-in for the collaborators, used to run the backends on concrete
    circuits: integers stand in for floating-point numbers, the QAM
    returns all-zero readouts of the declared size, and the successive
    identifiers are 0, 1, 2, ... *)

Module TestTarget.

#[export] Instance numerics : Numerics := {|
  Expr := option Z;
  float := Z;
  complex := Z * Z;
  float_of_Expr := λ e,
    match e with Some x => Converted x | None => RaisesOther "TypeError" end;
  np_pi := 3;
  float_mul := Z.mul;
  times_1j := λ x, (0, x);
  np_exp := λ z, z;
  complex_mul := λ a b, (a.1 * b.1 - a.2 * b.2, a.1 * b.2 + a.2 * b.1);
  complex_one := (1, 0)
|}.

Record program : Type := mkProgram {
  instructions : list Command;
  ro_size : nat;
  num_shots : nat
}.

Definition empty_circuit : Circuit :=
  {| qubits := []; bits := []; commands := []; phase := Some 0 |}.

(** The second argument of every [Measure] command. *)
Definition measured_bits (c : Circuit) : list Bit :=
  omap (λ cmd, if decide (op cmd = OpType.Measure) then args cmd !! 1%nat
               else None) (commands c).

Definition zeros (rows cols : nat) : ndarray :=
  {| n_rows := rows; n_cols := cols;
     tolist := replicate rows (replicate cols false) |}.

#[export] Instance forest : Forest ForestBackend.ResultHandle := {|
  Program := program;
  Executable := program;
  QAMExecutionResult := program;
  Json := unit;
  prepare_circuit := λ c, Ok (c, empty_circuit);
  to_dict := λ _, tt;
  from_dict := λ _, empty_circuit;
  json_dumps := λ o, match o with None => "null" | Some _ => "{}" end%string;
  json_loads := λ s, if decide (s = "null"%string) then Ok None
                     else Ok (Some tt);
  SimplifyInitial_apply := λ c, c;
  tk_to_pyquil := λ c,
    Ok ({| instructions := commands c; ro_size := length (bits c);
           num_shots := 1 |}, measured_bits c);
  wrap_in_numshots_loop := λ p n,
    {| instructions := instructions p; ro_size := ro_size p;
       num_shots := n |};
  native_quil_to_executable := λ p, Ok p;
  qam_execute := λ _ ex, Ok ex;
  qam_get_result_ro := λ r, Ok (Some (zeros (num_shots r) (ro_size r)));
  uuid4 := Z.of_nat;
  _get_n_shots_as_list := λ ns n,
    match ns with
    | NShotsInt k =>
        if decide (0 < k) then Ok (replicate n (Z.to_nat k))
        else Raise (ValueError "n_shots values are required")
    | NShotsSeq l =>
        if decide (length l = n ∧ Forall (λ o, 0 < default 0 o) l)
        then Ok (map (λ o, Z.to_nat (default 0 o)) l)
        else Raise (ValueError "n_shots values are required")
    | NShotsNone => Raise (ValueError "n_shots values are required")
    end;
  _check_all_circuits := λ _, Ok tt
|}.

#[export] Instance wavefunction : Wavefunction ForestStateBackend.ResultHandle := {|
  QuilProgram := list Command;
  PauliTerm_t := (Z * Z) * list (string * Z);
  PauliSum_t := list ((Z * Z) * list (string * Z));
  tk_to_pyquil_program := λ c, Ok (commands c);
  add_identity := λ p i, p ++ [mkCommand (OpType.Other "I") [mkUnitID "q" [i]]];
  sim_wavefunction := λ p, Ok [(1, 0); (0, 0)];
  sim_expectation_terms := λ _ _, Ok (1, 0);
  sim_expectation_sum := λ _ _, Ok (1, 0);
  ID := ((1, 0), []);
  PauliTerm := λ name i, ((1, 0), [(name, i)]);
  PauliTerm_scale := λ t c,
    ((t.1.1 * c.1 - t.1.2 * c.2, t.1.1 * c.2 + t.1.2 * c.1), t.2);
  PauliTerm_mul := λ a b,
    ((a.1.1 * b.1.1 - a.1.2 * b.1.2, a.1.1 * b.1.2 + a.1.2 * b.1.1),
     a.2 ++ b.2);
  PauliSum := λ ts, ts;
  implicit_qubit_permutation := λ _ q, q;
  sorted_reverse := λ l, reverse l;
  state_uuid4 := Z.of_nat;
  state_check_all_circuits := λ _, Ok tt
|}.

Definition q (i : nat) : Qubit := mkUnitID "q" [i].
Definition c (i : nat) : Bit := mkUnitID "c" [i].

(** Two qubits, one CZ, both measured. *)
Definition measured_circuit : Circuit :=
  {| qubits := [q 0; q 1]; bits := [c 0; c 1];
     commands := [mkCommand OpType.CZ [q 0; q 1];
                  mkCommand OpType.Measure [q 1; c 1];
                  mkCommand OpType.Measure [q 0; c 0]];
     phase := Some 0 |}.

(** One qubit, one bit, an [Rx] and no measurement. *)
Definition unmeasured_circuit : Circuit :=
  {| qubits := [q 0]; bits := [c 0];
     commands := [mkCommand OpType.Rx [q 0]];
     phase := Some 1 |}.

Definition no_kwargs : ForestBackend.Kwargs :=
  {| ForestBackend.seed := None; ForestBackend.postprocess := false;
     ForestBackend.simplify_initial := false |}.

Definition info : BackendInfo unit unit unit :=
  mkBackendInfo tt ForestBackend._GATE_SET tt tt.

(** The first handle a fresh [ForestBackend] issues. *)
Definition first_handle : ForestBackend.ResultHandle := (0, "null"%string).

(** A fresh backend after the submission of the unmeasured circuit, and
    of the measured circuit. *)
Definition after_unmeasured : ForestBackend.State :=
  (ForestBackend.process_circuits [unmeasured_circuit] (NShotsInt 10) true
     no_kwargs ForestBackend.init).2.

Definition after_measured : ForestBackend.State :=
  (ForestBackend.process_circuits [measured_circuit] (NShotsInt 2) true
     no_kwargs ForestBackend.init).2.

(** What [get_result] returns for the measured circuit: two shots of
    two zeros. *)
Definition retrieved_result : BackendResult :=
  {| shots := Some (from_readouts [[false; false]; [false; false]]);
     ppcirc := None; c_bits := None; q_bits := None; state := None |}.

(** Sessions: a submission alone, and a submission followed by the
    retrieval of its result. *)
Definition submit_only : list ForestBackend.Call :=
  [ForestBackend.ProcessCircuits [unmeasured_circuit] (NShotsInt 10) true
     no_kwargs].

Definition submit_and_retrieve : list ForestBackend.Call :=
  [ForestBackend.ProcessCircuits [measured_circuit] (NShotsInt 2) true
     no_kwargs;
   ForestBackend.GetResult first_handle].

Definition state_session : list ForestStateBackend.Call :=
  [ForestStateBackend.ProcessCircuits [unmeasured_circuit] true].

(** A Pauli string over the default register, and one that leaves it. *)
Definition default_string : ForestStateBackend.QubitPauliString :=
  [(q 0, Pauli_X); (q 1, Pauli_Z)].

Definition foreign_string : ForestStateBackend.QubitPauliString :=
  [(q 0, Pauli_X); (mkUnitID "anc" [0%nat], Pauli_Z)].

(** Device discovery: every name is a computer, characterised by a line
    of as many qubits as its name has characters. *)
#[export] Instance devices : Devices ForestBackend.ResultHandle := {|
  QuantumComputer := string;
  Characterisation := nat;
  Arch := list (nat * nat);
  AllNodeErrors := list nat;
  AllEdgeErrors := list (nat * nat);
  AvgNodeErrors := list nat;
  AvgEdgeErrors := list (nat * nat);
  KwValue := bool;
  kw_False := false;
  process_characterisation := λ qc, Ok (String.length qc);
  get_Architecture := λ n, Some (map (λ i, (i, S i)) (seq 0 (pred n)));
  get_NodeErrors := λ n, Some (seq 0 n);
  get_EdgeErrors := λ n, Some (map (λ i, (i, S i)) (seq 0 (pred n)));
  get_avg_characterisation := λ n,
    Ok (seq 0 n, map (λ i, (i, S i)) (seq 0 (pred n)));
  qc_name := λ qc, qc;
  __extension_version__ := "0.0.0";
  list_quantum_computers := λ kwargs,
    Ok (if default false (kwargs !! "qvms"%string) then ["2q-qvm"; "Aspen"]
        else ["Aspen"])%string;
  get_qc := λ name, Ok name
|}.

(** The computer "Aspen" and what [_get_backend_info] makes of it. *)
Definition aspen : QuantumComputer (Devices := devices) := "Aspen"%string.

Definition aspen_info
  : DeviceInfo (Arch (Devices := devices)) (AllNodeErrors (Devices := devices))
      (AllEdgeErrors (Devices := devices)) (AvgNodeErrors (Devices := devices))
      (AvgEdgeErrors (Devices := devices)) :=
  {| name := "ForestBackend";
     device_name := "Aspen";
     version := "0.0.0";
     all_node_gate_errors := Some [0; 1; 2; 3; 4]%nat;
     all_edge_gate_errors := Some [(0, 1); (1, 2); (2, 3); (3, 4)]%nat;
     pipeline_info :=
       mkBackendInfo (Some [(0, 1); (1, 2); (2, 3); (3, 4)]%nat)
         ForestBackend._GATE_SET [0; 1; 2; 3; 4]%nat
         [(0, 1); (1, 2); (2, 3); (3, 4)]%nat |}.

(** The same target with a QAM that has no readout to give. *)
Definition forest_without_readout : Forest ForestBackend.ResultHandle := {|
  Program := program;
  Executable := program;
  QAMExecutionResult := program;
  Json := unit;
  prepare_circuit := λ c, Ok (c, empty_circuit);
  to_dict := λ _, tt;
  from_dict := λ _, empty_circuit;
  json_dumps := json_dumps (Forest := forest);
  json_loads := json_loads (Forest := forest);
  SimplifyInitial_apply := λ c, c;
  tk_to_pyquil := tk_to_pyquil (Forest := forest);
  wrap_in_numshots_loop := wrap_in_numshots_loop (Forest := forest);
  native_quil_to_executable := λ p, Ok p;
  qam_execute := λ _ ex, Ok ex;
  qam_get_result_ro := λ _, Ok None;
  uuid4 := Z.of_nat;
  _get_n_shots_as_list := _get_n_shots_as_list (Forest := forest);
  _check_all_circuits := λ _, Ok tt
|}.

(** A fresh backend on that target after the submission of the measured
    circuit. *)
Definition waiting :
    ForestBackend.State (Forest0 := forest_without_readout) :=
  (ForestBackend.process_circuits (Forest0 := forest_without_readout)
     [measured_circuit] (NShotsInt 2) true no_kwargs
     (ForestBackend.init (Forest0 := forest_without_readout))).2.

Definition postprocess_kwargs : ForestBackend.Kwargs :=
  {| ForestBackend.seed := None; ForestBackend.postprocess := true;
     ForestBackend.simplify_initial := false |}.

(** The handle and the backend after a submission of the measured circuit
    with post-processing. *)
Definition postprocessed_handle : ForestBackend.ResultHandle :=
  (0, "{}"%string).

Definition after_postprocessed : ForestBackend.State :=
  (ForestBackend.process_circuits [measured_circuit] (NShotsInt 2) true
     postprocess_kwargs ForestBackend.init).2.

(** What [get_result] returns for it. *)
Definition postprocessed_result : BackendResult :=
  {| shots := Some (from_readouts [[false; false]; [false; false]]);
     ppcirc := Some empty_circuit;
     c_bits := None; q_bits := None; state := None |}.

(** A translation that refuses a circuit with a qubit outside the
    register ["q"], and is otherwise that of [wavefunction]. *)
Definition strict_wavefunction
  : Wavefunction ForestStateBackend.ResultHandle := {|
  QuilProgram := list Command;
  PauliTerm_t := (Z * Z) * list (string * Z);
  PauliSum_t := list ((Z * Z) * list (string * Z));
  tk_to_pyquil_program := λ c,
    if decide (Forall (λ qb, reg_name qb = "q"%string) (qubits c))
    then Ok (commands c)
    else Raise (ExternalError "NotImplementedError");
  add_identity := add_identity (Wavefunction := wavefunction);
  sim_wavefunction := sim_wavefunction (Wavefunction := wavefunction);
  sim_expectation_terms := sim_expectation_terms (Wavefunction := wavefunction);
  sim_expectation_sum := sim_expectation_sum (Wavefunction := wavefunction);
  ID := ID (Wavefunction := wavefunction);
  PauliTerm := PauliTerm (Wavefunction := wavefunction);
  PauliTerm_scale := PauliTerm_scale (Wavefunction := wavefunction);
  PauliTerm_mul := PauliTerm_mul (Wavefunction := wavefunction);
  PauliSum := PauliSum (Wavefunction := wavefunction);
  implicit_qubit_permutation := λ _ q, q;
  sorted_reverse := λ l, reverse l;
  state_uuid4 := Z.of_nat;
  state_check_all_circuits := λ _, Ok tt
|}.

(** A circuit over two registers, with an [X] on the qubit of the second. *)
Definition two_register_circuit : Circuit :=
  {| qubits := [q 0; mkUnitID "anc" [0%nat]]; bits := [];
     commands := [mkCommand OpType.X [mkUnitID "anc" [0%nat]]];
     phase := Some 0 |}.

(** A session of two submissions on the state-based backend, the second
    of two circuits. *)
Definition state_two_submissions : list ForestStateBackend.Call :=
  [ForestStateBackend.ProcessCircuits [unmeasured_circuit] true;
   ForestStateBackend.ProcessCircuits [measured_circuit; unmeasured_circuit]
     false].

(** One qubit with a phase that depends on a symbol. *)
Definition symbolic_circuit : Circuit :=
  {| qubits := [q 0]; bits := [];
     commands := [mkCommand OpType.Rx [q 0]];
     phase := None |}.

End TestTarget.

(** ** Vocabulary of the properties *)

Section Vocabulary.
Context {Architecture NodeErrors EdgeErrors : Type}.

(** The placement handed to each routing pass ([CXMappingPass]) of a
    pipeline, in order. *)
Definition routing_placers (p : BasePass Architecture NodeErrors EdgeErrors)
  : list (Placement Architecture NodeErrors EdgeErrors) :=
  match p with
  | SequencePass passlist =>
      omap (λ q, match q with
                 | CXMappingPass _ placer _ _ => Some placer
                 | _ => None
                 end) passlist
  | _ => []
  end.

Definition is_naive (pl : Placement Architecture NodeErrors EdgeErrors) : bool :=
  match pl with NaivePlacement _ => true | _ => false end.

Definition is_noise_aware (pl : Placement Architecture NodeErrors EdgeErrors)
  : bool :=
  match pl with NoiseAwarePlacement _ _ _ => true | _ => false end.

(** The passes of a pipeline. *)
Definition passes_of (p : BasePass Architecture NodeErrors EdgeErrors)
  : list (BasePass Architecture NodeErrors EdgeErrors) :=
  match p with SequencePass passlist => passlist | _ => [p] end.

(** The gates a pass is told to produce. *)
Definition pass_gates (p : BasePass Architecture NodeErrors EdgeErrors)
  : list OpType.t :=
  match p with
  | AutoRebase gateset => gateset
  | EulerAngleReduction p q => [p; q]
  | _ => []
  end.

(** The architectures a pass routes or places onto. *)
Definition pass_architectures (p : BasePass Architecture NodeErrors EdgeErrors)
  : list Architecture :=
  match p with
  | CXMappingPass arch _ _ _ => [arch]
  | NaivePlacementPass arch => [arch]
  | _ => []
  end.

(** A pass that depends on the connectivity of a device. *)
Definition is_routing (p : BasePass Architecture NodeErrors EdgeErrors) : bool :=
  match p with
  | CXMappingPass _ _ _ _ | NaivePlacementPass _ => true
  | _ => false
  end.
End Vocabulary.

(** * Verification *)

(** ** Status of a handle on the shot-based backend *)

Section ForestStatus.
Context `{!Numerics, !Forest ForestBackend.ResultHandle}.
Import ForestBackend.

Lemma circuit_status_pure (h : ResultHandle) (st : State) :
  (circuit_status h st).2 = st.
Proof.
  unfold circuit_status, bind, get; simpl.
  destruct (_cache st !! h) as [entry|]; [destruct (result entry)|]; done.
Qed.

Lemma circuit_status_completed_iff (h : ResultHandle) (st : State) :
  (circuit_status h st).1 = Ok (mkCircuitStatus COMPLETED)
  ↔ ∃ entry res, _cache st !! h = Some entry ∧ result entry = Some res.
Proof.
  unfold circuit_status, bind, get; simpl.
  destruct (_cache st !! h) as [entry|] eqn:Hh;
    [destruct (result entry) as [res|] eqn:Hres|]; simpl; split.
  - eauto.
  - done.
  - discriminate.
  - intros (e & r & [= <-] & Hr). congruence.
  - discriminate.
  - intros (e & r & [=] & _).
Qed.

(** C1. On [ForestBackend], [circuit_status] has exactly three outcomes,
    decided by the cache alone: [COMPLETED] when a result is cached for
    the handle, [PyQuilJobStatusUnavailable] when the handle is in the
    cache without a result, [CircuitNotRunError] when the handle is not
    in the cache.  The three cases are exhaustive and exclude one
    another, and the call leaves the backend as it was. *)
Theorem circuit_status_three_outcomes (h : ResultHandle) (st : State) :
  let r := (circuit_status h st).1 in
  (r = Ok (mkCircuitStatus COMPLETED)
     ↔ ∃ entry res, _cache st !! h = Some entry ∧ result entry = Some res)
  ∧ (r = Raise PyQuilJobStatusUnavailable
     ↔ ∃ entry, _cache st !! h = Some entry ∧ result entry = None)
  ∧ (r = Raise (CircuitNotRunError h) ↔ _cache st !! h = None)
  ∧ (r = Ok (mkCircuitStatus COMPLETED)
     ∨ r = Raise PyQuilJobStatusUnavailable
     ∨ r = Raise (CircuitNotRunError h))
  ∧ (circuit_status h st).2 = st.
Proof.
  split; [apply circuit_status_completed_iff|].
  split; [|split; [|split; [|apply circuit_status_pure]]].
  all: unfold circuit_status, bind, get; simpl.
  all: destruct (_cache st !! h) as [entry|] eqn:Hh;
    [destruct (result entry) as [res|] eqn:Hres|]; simpl.
  all: try (split; [try discriminate; eauto|]).
  all: try (intros (e & [= <-] & Hr); congruence).
  all: try (intros (e & [=] & _)).
  all: try discriminate; auto.
Qed.
End ForestStatus.

(** ** The compilation pipelines *)

Section Pipelines.
Context {Architecture NodeErrors EdgeErrors Handle : Type}.
Implicit Types info : BackendInfo Architecture NodeErrors EdgeErrors.

Lemma forest_pipeline_level0 info :
  ForestBackend.default_compilation_pass (Handle := Handle) info 0
  = Ok (SequencePass
          [DecomposeBoxes; FlattenRegisters;
           CXMappingPass (architecture info)
             (NoiseAwarePlacement (architecture info)
                (averaged_node_gate_errors info)
                (averaged_edge_gate_errors info)) false true;
           NaivePlacementPass (architecture info);
           ForestBackend.rebase_pass]).
Proof. reflexivity. Qed.

Lemma forest_pipeline_level1 info :
  ForestBackend.default_compilation_pass (Handle := Handle) info 1
  = Ok (SequencePass
          [DecomposeBoxes; FlattenRegisters; SynthesiseTket;
           CXMappingPass (architecture info)
             (NoiseAwarePlacement (architecture info)
                (averaged_node_gate_errors info)
                (averaged_edge_gate_errors info)) false true;
           NaivePlacementPass (architecture info);
           SynthesiseTket;
           ForestBackend.rebase_pass;
           EulerAngleReduction OpType.Rx OpType.Rz]).
Proof. reflexivity. Qed.

Lemma forest_pipeline_level2 info :
  ForestBackend.default_compilation_pass (Handle := Handle) info 2
  = Ok (SequencePass
          [DecomposeBoxes; FlattenRegisters; FullPeepholeOptimise;
           CXMappingPass (architecture info)
             (NoiseAwarePlacement (architecture info)
                (averaged_node_gate_errors info)
                (averaged_edge_gate_errors info)) false true;
           NaivePlacementPass (architecture info);
           KAKDecomposition false; CliffordSimp false;
           SynthesiseTket;
           ForestBackend.rebase_pass;
           EulerAngleReduction OpType.Rx OpType.Rz]).
Proof. reflexivity. Qed.

Lemma level_cases (optimisation_level : Z) :
  0 ≤ optimisation_level < 3 →
  optimisation_level = 0 ∨ optimisation_level = 1 ∨ optimisation_level = 2.
Proof. lia. Qed.

(** C2, as the code has it.  At each of the levels 0, 1 and 2 the
    pipeline of [ForestBackend] has one routing pass, built with
    noise-aware placement over the averaged node and edge errors of the
    device, and a [NaivePlacementPass] right after it: the level does
    not change the placement. *)
Theorem routing_placement_every_level info (optimisation_level : Z) :
  0 ≤ optimisation_level < 3 →
  ∃ p before after,
    ForestBackend.default_compilation_pass (Handle := Handle)
      info optimisation_level = Ok p
    ∧ routing_placers p
      = [NoiseAwarePlacement (architecture info)
           (averaged_node_gate_errors info)
           (averaged_edge_gate_errors info)]
    ∧ passes_of p
      = before
        ++ [CXMappingPass (architecture info)
              (NoiseAwarePlacement (architecture info)
                 (averaged_node_gate_errors info)
                 (averaged_edge_gate_errors info)) false true;
            NaivePlacementPass (architecture info)]
        ++ after.
Proof.
  intros Hlevel.
  destruct (level_cases _ Hlevel) as [-> | [-> | ->]].
  - eexists _, [DecomposeBoxes; FlattenRegisters], _.
    rewrite forest_pipeline_level0. repeat split; reflexivity.
  - eexists _, [DecomposeBoxes; FlattenRegisters; SynthesiseTket], _.
    rewrite forest_pipeline_level1. repeat split; reflexivity.
  - eexists _, [DecomposeBoxes; FlattenRegisters; FullPeepholeOptimise], _.
    rewrite forest_pipeline_level2. repeat split; reflexivity.
Qed.

(** C7. For an optimisation level outside {0, 1, 2} the assertion at
    the head of [default_compilation_pass] fails, on both backends, and
    no pipeline is built. *)
Theorem invalid_level_fails_fast info (optimisation_level : Z) :
  ¬ (optimisation_level = 0 ∨ optimisation_level = 1
     ∨ optimisation_level = 2) →
  ForestBackend.default_compilation_pass (Handle := Handle)
    info optimisation_level = Raise AssertionError
  ∧ ForestStateBackend.default_compilation_pass
      (Architecture := Architecture) (NodeErrors := NodeErrors)
      (EdgeErrors := EdgeErrors) (Handle := Handle) optimisation_level
    = Raise AssertionError.
Proof.
  intros Hout.
  assert (Hrange : ¬ (0 ≤ optimisation_level < 3)) by lia.
  unfold ForestBackend.default_compilation_pass,
    ForestStateBackend.default_compilation_pass.
  rewrite (bool_decide_eq_false_2 _ Hrange). done.
Qed.

(** The converse: a level in {0, 1, 2} passes the assertion. *)
Lemma valid_level_builds info (optimisation_level : Z) :
  0 ≤ optimisation_level < 3 →
  (∃ p, ForestBackend.default_compilation_pass (Handle := Handle)
          info optimisation_level = Ok p)
  ∧ (∃ p, ForestStateBackend.default_compilation_pass
            (Architecture := Architecture) (NodeErrors := NodeErrors)
            (EdgeErrors := EdgeErrors) (Handle := Handle)
            optimisation_level = Ok p).
Proof.
  intros Hlevel.
  destruct (level_cases _ Hlevel) as [-> | [-> | ->]];
    split; eexists; reflexivity.
Qed.
End Pipelines.

(** At level 3 both backends refuse to build a pipeline. *)
Lemma invalid_level_fails_fast_witness :
  ForestBackend.default_compilation_pass (Handle := ForestBackend.ResultHandle)
    TestTarget.info 3 = Raise AssertionError
  ∧ ForestStateBackend.default_compilation_pass
      (Architecture := unit) (NodeErrors := unit) (EdgeErrors := unit)
      (Handle := ForestBackend.ResultHandle) 3 = Raise AssertionError.
Proof.
  apply (invalid_level_fails_fast TestTarget.info 3). lia.
Defined.

(** At level 0 the routing pass is built with noise-aware placement. *)
Lemma routing_placement_every_level_witness :
  ∃ p before after,
    ForestBackend.default_compilation_pass (Handle := ForestBackend.ResultHandle)
      TestTarget.info 0 = Ok p
    ∧ routing_placers p = [NoiseAwarePlacement tt tt tt]
    ∧ passes_of p
      = before
        ++ [CXMappingPass tt (NoiseAwarePlacement tt tt tt) false true;
            NaivePlacementPass tt]
        ++ after.
Proof.
  apply (routing_placement_every_level TestTarget.info 0). lia.
Defined.

(** C2, as stated, fails at level 0: the routing pass of the level-0
    pipeline is not built with naive placement but with noise-aware
    placement. *)
Lemma level0_routing_is_noise_aware :
  ¬ (∀ p,
       ForestBackend.default_compilation_pass
         (Handle := ForestBackend.ResultHandle) TestTarget.info 0 = Ok p →
       Forall (λ placer, is_naive placer = true
                         ∧ is_noise_aware placer = false)
              (routing_placers p)).
Proof.
  intros Hclaim.
  specialize (Hclaim _ (forest_pipeline_level0 TestTarget.info)).
  simpl in Hclaim. inversion Hclaim as [|? ? [Hnaive _] _]. discriminate.
Qed.

(** ** Submission on the shot-based backend *)

Section ForestSubmission.
Context `{!Numerics, !Forest ForestBackend.ResultHandle}.
Import ForestBackend.

(** What one iteration of the loop of [process_circuits] does to the
    backend: nothing to the cache when it raises; otherwise it draws one
    identifier and writes one entry, with the empty result exactly when
    the circuit has no [Measure] gate. *)
Lemma process_circuit_spec kw circuit n_shots st :
  match process_circuit kw circuit n_shots st with
  | (Raise _, st') =>
      _cache st' = _cache st ∧ uuid_drawn st' = uuid_drawn st
      ∧ qam_fetched st' = qam_fetched st
  | (Ok h, st') =>
      ∃ entry,
        entry_written kw circuit n_shots entry
        ∧ h.1 = uuid4 (uuid_drawn st)
        ∧ _cache st' = <[h := entry]> (_cache st)
        ∧ uuid_drawn st' = S (uuid_drawn st)
        ∧ qam_fetched st' = qam_fetched st
  end.
Proof.
  unfold process_circuit, entry_written, translated, submitted, bind, lift,
    modify, ret, execute, draw_uuid, set_cache.
  set (circuit' := if simplify_initial kw then _ else _).
  destruct (postprocess kw) eqn:Hpost; simpl.
  - destruct (prepare_circuit circuit) as [[c0 ppcirc]|e]; simpl; [|done].
    destruct (tk_to_pyquil c0) as [[p used]|e] eqn:Htk; simpl; [|done].
    destruct (exc_mapM _ used) as [positions|e] eqn:Hpos; simpl; [|done].
    destruct (native_quil_to_executable _) as [ex|e]; simpl; [|done].
    destruct (qam_execute _ ex) as [qh|e]; simpl; [|done].
    destruct (decide (n_gates_of_type circuit' OpType.Measure = O));
      [exists {| handle := qh; bit_indices := sorted positions;
                 result := Some (empty_result circuit' n_shots) |}
      |exists {| handle := qh; bit_indices := sorted positions;
                 result := None |}].
    all: split; [exists c0, p, used, positions|]; done.
  - destruct (tk_to_pyquil circuit') as [[p used]|e] eqn:Htk; simpl; [|done].
    destruct (exc_mapM _ used) as [positions|e] eqn:Hpos; simpl; [|done].
    destruct (native_quil_to_executable _) as [ex|e]; simpl; [|done].
    destruct (qam_execute _ ex) as [qh|e]; simpl; [|done].
    destruct (decide (n_gates_of_type circuit' OpType.Measure = O));
      [exists {| handle := qh; bit_indices := sorted positions;
                 result := Some (empty_result circuit' n_shots) |}
      |exists {| handle := qh; bit_indices := sorted positions;
                 result := None |}].
    all: split; [exists circuit', p, used, positions|]; done.
Qed.
End ForestSubmission.

(** ** Retrieval on the shot-based backend *)

Section ForestRetrieval.
Context `{!Numerics, !Forest ForestBackend.ResultHandle}.
Import ForestBackend.

Lemma get_result_cached h st entry res :
  _cache st !! h = Some entry → result entry = Some res →
  get_result h st = (Ok res, st).
Proof.
  intros Hh Hres. unfold get_result, Backend_get_result, bind, get; simpl.
  by rewrite Hh, Hres.
Qed.

Lemma get_result_unknown h st :
  _cache st !! h = None →
  get_result h st = (Raise (CircuitNotRunError h), st).
Proof.
  intros Hh.
  unfold get_result, Backend_get_result, retrieve, bind, get; simpl.
  rewrite Hh; simpl. by rewrite Hh.
Qed.

(** What [get_result] does on a handle that is in the cache without a
    result: one fetch from the QAM, the columns of the stored
    [bit_indices], and the result written into the entry. *)
Lemma get_result_uncached h st entry :
  _cache st !! h = Some entry → result entry = None →
  match get_result h st with
  | (Ok res, st') =>
      ∃ raw filtered,
        qam_get_result_ro (handle entry) = Ok (Some raw)
        ∧ take_columns (Handle := ResultHandle) raw (bit_indices entry)
          = Ok filtered
        ∧ shots res = Some (from_readouts (tolist filtered))
        ∧ _cache st'
          = <[h := {| handle := handle entry;
                      bit_indices := bit_indices entry;
                      result := Some res |}]> (_cache st)
        ∧ uuid_drawn st' = uuid_drawn st
        ∧ qam_fetched st' = qam_fetched st ++ [handle entry]
  | (Raise _, st') =>
      _cache st' = _cache st ∧ uuid_drawn st' = uuid_drawn st
  end.
Proof.
  intros Hh Hres.
  unfold get_result, Backend_get_result, retrieve, bind, get, fetch, lift,
    modify, ret, raise, set_cache; simpl.
  rewrite Hh, Hres; simpl. rewrite Hh; simpl.
  destruct (qam_get_result_ro (handle entry)) as [[raw|]|e]; simpl;
    [|done|done].
  destruct (take_columns raw (bit_indices entry)) as [filtered|e] eqn:Hcols;
    simpl; [|done].
  destruct (json_loads h.2) as [ppcirc_rep|e]; simpl; [|done].
  exists raw, filtered. repeat split; try done.
  apply map_eq. intros h'. destruct (decide (h = h')) as [<-|Hne].
  - by rewrite lookup_alter_eq, lookup_insert_eq, Hh.
  - by rewrite lookup_alter_ne, lookup_insert_ne.
Qed.

(** A successful [get_result] leaves its result in the cache. *)
Lemma get_result_caches h st res st' :
  get_result h st = (Ok res, st') →
  ∃ entry, _cache st' !! h = Some entry ∧ result entry = Some res.
Proof.
  intros Hget.
  destruct (_cache st !! h) as [entry|] eqn:Hh.
  - destruct (result entry) as [res0|] eqn:Hres.
    + rewrite (get_result_cached _ _ _ _ Hh Hres) in Hget.
      injection Hget as <- <-. eauto.
    + pose proof (get_result_uncached _ _ _ Hh Hres) as Hspec.
      rewrite Hget in Hspec.
      destruct Hspec as (raw & filtered & _ & _ & _ & Hcache & _).
      eexists. rewrite Hcache, lookup_insert_eq. eauto.
  - rewrite (get_result_unknown _ _ Hh) in Hget. discriminate.
Qed.

(** C3. When a result is cached for a handle, [get_result] returns
    exactly that result and leaves the backend as it was: the cache is
    not rewritten and the log of fetches from the QAM does not grow.  A
    further call therefore does the same. *)
Theorem get_result_cached_no_fetch h st entry res :
  _cache st !! h = Some entry → result entry = Some res →
  get_result h st = (Ok res, st)
  ∧ get_result h (get_result h st).2 = (Ok res, st)
  ∧ _cache (get_result h st).2 = _cache st
  ∧ qam_fetched (get_result h st).2 = qam_fetched st.
Proof.
  intros Hh Hres.
  pose proof (get_result_cached _ _ _ _ Hh Hres) as Hget.
  rewrite Hget; simpl. by rewrite Hget.
Qed.

(** Calling [get_result] twice: the second call returns what the first
    returned, and changes nothing. *)
Lemma get_result_twice h st res st' :
  get_result h st = (Ok res, st') → get_result h st' = (Ok res, st').
Proof.
  intros Hget. destruct (get_result_caches _ _ _ _ Hget) as (entry & Hh & Hres).
  by apply (get_result_cached _ _ entry).
Qed.
End ForestRetrieval.

(** ** Batches on the shot-based backend *)

Section ForestBatch.
Context `{!Numerics, !Forest ForestBackend.ResultHandle}.
Import ForestBackend.

Lemma process_circuit_frame kw circuit n_shots st :
  let st' := (process_circuit kw circuit n_shots st).2 in
  (uuid_drawn st ≤ uuid_drawn st')%nat
  ∧ qam_fetched st' = qam_fetched st
  ∧ ∀ h, ¬ drawn_between st st' h → _cache st' !! h = _cache st !! h.
Proof.
  pose proof (process_circuit_spec kw circuit n_shots st) as Hspec.
  destruct (process_circuit kw circuit n_shots st) as [[h0|e] st']; simpl.
  - destruct Hspec as (entry & _ & Hh0 & Hcache & Hdrawn & Hfetched).
    split; [lia|]. split; [done|]. intros h Hnot.
    rewrite Hcache. apply lookup_insert_ne. intros <-.
    apply Hnot. exists (uuid_drawn st). split; [lia|done].
  - destruct Hspec as (Hcache & Hdrawn & Hfetched).
    split; [lia|]. split; [done|]. intros. by rewrite Hcache.
Qed.

Lemma drawn_between_widen st0 st1 st2 h :
  (uuid_drawn st0 ≤ uuid_drawn st1)%nat →
  (uuid_drawn st1 ≤ uuid_drawn st2)%nat →
  drawn_between st0 st1 h ∨ drawn_between st1 st2 h →
  drawn_between st0 st2 h.
Proof.
  intros H01 H12 [(k & Hk & Hh)|(k & Hk & Hh)]; exists k; split; (lia || done).
Qed.

Lemma process_loop_frame kw jobs st :
  let st' := (process_loop kw jobs st).2 in
  (uuid_drawn st ≤ uuid_drawn st')%nat
  ∧ qam_fetched st' = qam_fetched st
  ∧ ∀ h, ¬ drawn_between st st' h → _cache st' !! h = _cache st !! h.
Proof.
  revert st. induction jobs as [|[circuit n_shots] jobs IH]; intros st; simpl.
  - split; [lia|]. split; done.
  - unfold bind.
    pose proof (process_circuit_frame kw circuit n_shots st) as Hstep.
    destruct (process_circuit kw circuit n_shots st) as [[h0|e] st1];
      simpl in *; [|done].
    destruct Hstep as (Hle1 & Hf1 & Hframe1).
    specialize (IH st1).
    destruct (process_loop kw jobs st1) as [[hs|e] st2]; simpl in *;
      destruct IH as (Hle2 & Hf2 & Hframe2).
    all: split; [lia|]; split; [congruence|]; intros h Hnot.
    all: rewrite Hframe2; [rewrite Hframe1; [done|]|].
    all: intros Hd; apply Hnot;
      apply (drawn_between_widen st st1 st2); auto.
Qed.

Lemma process_loop_length kw jobs st handle_list st' :
  process_loop kw jobs st = (Ok handle_list, st') →
  length handle_list = length jobs.
Proof.
  revert st handle_list.
  induction jobs as [|[circuit n_shots] jobs IH]; intros st hs; simpl.
  - unfold ret. by intros [= <- _].
  - unfold bind.
    destruct (process_circuit kw circuit n_shots st) as [[h0|e] st1];
      [|done].
    destruct (process_loop kw jobs st1) as [[hs'|e] st2] eqn:Hloop; [|done].
    unfold ret. intros [= <- <-]. simpl. f_equal. by eapply IH.
Qed.

Lemma process_circuits_loop circuits n_shots valid_check kw st :
  (∃ e, process_circuits circuits n_shots valid_check kw st = (Raise e, st))
  ∨ ∃ n_shots_list,
      process_circuits circuits n_shots valid_check kw st
      = process_loop kw (zip circuits n_shots_list) st.
Proof.
  unfold process_circuits, bind, lift.
  destruct (_get_n_shots_as_list n_shots (length circuits)) as [nsl|e];
    [|eauto].
  destruct valid_check; [destruct (_check_all_circuits circuits)|]; eauto.
Qed.

Lemma process_circuits_frame circuits n_shots valid_check kw st :
  let st' := (process_circuits circuits n_shots valid_check kw st).2 in
  (uuid_drawn st ≤ uuid_drawn st')%nat
  ∧ qam_fetched st' = qam_fetched st
  ∧ ∀ h, ¬ drawn_between st st' h → _cache st' !! h = _cache st !! h.
Proof.
  destruct (process_circuits_loop circuits n_shots valid_check kw st)
    as [[e ->]|[nsl ->]]; [simpl; eauto|apply process_loop_frame].
Qed.

Section Unique.
(** [uuid4] never returns the same identifier twice. *)
Hypothesis uuid4_unique : Inj (=) (=) uuid4.

Lemma not_drawn_later st0 st1 st2 h :
  (uuid_drawn st0 ≤ uuid_drawn st1)%nat →
  drawn_between st0 st1 h → ¬ drawn_between st1 st2 h.
Proof.
  intros Hle (k & Hk & Hh) (k' & Hk' & Hh').
  rewrite Hh in Hh'. apply uuid4_unique in Hh'. lia.
Qed.

(** The entry of every handle a completed loop returned is the one
    written for its circuit. *)
Lemma process_loop_entries kw jobs st handle_list st' :
  process_loop kw jobs st = (Ok handle_list, st') →
  ∀ i circuit n_shots h,
    jobs !! i = Some (circuit, n_shots) → handle_list !! i = Some h →
    drawn_between st st' h
    ∧ ∃ entry,
        _cache st' !! h = Some entry
        ∧ entry_written kw circuit n_shots entry.
Proof.
  revert st handle_list.
  induction jobs as [|[circuit0 n0] jobs IH]; intros st hs; simpl;
    [intros _ i ? ? ? Hi; by rewrite lookup_nil in Hi|].
  unfold bind.
  pose proof (process_circuit_spec kw circuit0 n0 st) as Hspec.
  pose proof (process_circuit_frame kw circuit0 n0 st) as Hstep.
  destruct (process_circuit kw circuit0 n0 st) as [[h0|e] st1];
    simpl in *; [|done].
  pose proof (process_loop_frame kw jobs st1) as Hrest.
  specialize (IH st1).
  destruct (process_loop kw jobs st1) as [[hs'|e] st2]; simpl in *; [|done].
  unfold ret. intros [= <- <-].
  destruct Hstep as (Hle1 & _ & _). destruct Hrest as (Hle2 & _ & Hframe2).
  destruct Hspec as (entry0 & Hwritten & Hh0 & Hcache & Hdrawn & _).
  assert (Hd0 : drawn_between st st1 h0).
  { exists (uuid_drawn st). split; [lia|done]. }
  intros [|i] circuit n_shots h Hjob Hh; simpl in *.
  - injection Hjob as <- <-. injection Hh as <-.
    split; [apply (drawn_between_widen st st1 st2); auto|].
    exists entry0. split; [|done].
    rewrite Hframe2 by (by apply (not_drawn_later st st1 st2)).
    by rewrite Hcache, lookup_insert_eq.
  - destruct (IH _ eq_refl i circuit n_shots h Hjob Hh) as (Hd & Hentry).
    split; [apply (drawn_between_widen st st1 st2); auto|done].
Qed.

(** The same for [process_circuits], which pairs each circuit with its
    number of shots. *)
Lemma process_circuits_entries
    circuits n_shots valid_check kw st handle_list st' i circuit h :
  process_circuits circuits n_shots valid_check kw st
    = (Ok handle_list, st') →
  circuits !! i = Some circuit → handle_list !! i = Some h →
  drawn_between st st' h
  ∧ ∃ n entry,
      _cache st' !! h = Some entry ∧ entry_written kw circuit n entry.
Proof.
  intros Hrun Hcircuit Hh.
  destruct (process_circuits_loop circuits n_shots valid_check kw st)
    as [[e He]|[nsl Hloop]]; [congruence|].
  rewrite Hloop in Hrun.
  pose proof (process_loop_length _ _ _ _ _ Hrun) as Hlen.
  assert (Hjob : ∃ n, zip circuits nsl !! i = Some (circuit, n)).
  { destruct (zip circuits nsl !! i) as [[c n]|] eqn:Hz.
    - apply lookup_zip_with_Some in Hz as (c' & n' & Heq & Hc & _).
      exists n. congruence.
    - apply lookup_ge_None in Hz. apply lookup_lt_Some in Hh. lia. }
  destruct Hjob as [n Hjob].
  destruct (process_loop_entries _ _ _ _ _ Hrun i circuit n h Hjob Hh)
    as (Hd & entry & Hentry & Hwritten).
  split; [done|]. by exists n, entry.
Qed.

End Unique.
End ForestBatch.

(** ** The columns of a retrieved outcome table *)

Section Columns.
Context {Handle : Type}.

Lemma list_index_lookup (l : list UnitID) (x : UnitID) (i : nat) :
  list_index (Handle := Handle) l x = Ok i → l !! i = Some x.
Proof.
  revert i. induction l as [|y l IH]; intros i; simpl; [done|].
  destruct (decide (y = x)) as [->|Hne]; [by intros [= <-]|].
  destruct (list_index l x) as [j|e]; simpl; [|done].
  intros [= <-]. simpl. by apply IH.
Qed.

Lemma exc_mapM_Forall2 {A B} (f : A → Exc Handle B) (l : list A) (bs : list B) :
  exc_mapM f l = Ok bs → Forall2 (λ a b, f a = Ok b) l bs.
Proof.
  revert bs. induction l as [|a l IH]; intros bs; simpl.
  - intros [= <-]. constructor.
  - destruct (f a) as [b|e] eqn:Hfa; simpl; [|done].
    destruct (exc_mapM f l) as [bs'|e]; simpl; [|done].
    intros [= <-]. constructor; auto.
Qed.

(** The positions computed for the used bits: each is where its bit
    sits in the list of bits. *)
Lemma positions_lookup (register used : list Bit) (positions : list nat) :
  exc_mapM (Handle := Handle) (list_index register) used = Ok positions →
  Forall2 (λ bit i, register !! i = Some bit) used positions.
Proof.
  intros Hpos. apply exc_mapM_Forall2 in Hpos.
  eapply Forall2_impl; [exact Hpos|]. intros bit i. apply list_index_lookup.
Qed.

Lemma positions_NoDup (register used : list Bit) (positions : list nat) :
  Forall2 (λ bit i, register !! i = Some bit) used positions →
  NoDup used → NoDup positions.
Proof.
  induction 1 as [|bit i used positions Hbit Hrest IH];
    intros Hnodup; [constructor|].
  apply NoDup_cons in Hnodup as [Hnotin Hnodup].
  apply NoDup_cons. split; [|auto].
  intros Hin. apply Hnotin.
  apply list_elem_of_lookup in Hin as [j Hj].
  destruct (Forall2_lookup_r _ _ _ _ _ Hrest Hj) as (bit' & Hbit' & Hreg).
  assert (bit' = bit) as -> by congruence.
  apply list_elem_of_lookup. eauto.
Qed.

Lemma sorted_ascending (l : list nat) : StronglySorted Nat.le (sorted l).
Proof. apply StronglySorted_merge_sort; apply _. Qed.

Lemma sorted_permutation (l : list nat) : sorted l ≡ₚ l.
Proof. apply merge_sort_Permutation. Qed.

Lemma strictly_ascending (l : list nat) :
  StronglySorted Nat.le l → NoDup l → StronglySorted Nat.lt l.
Proof.
  induction 1 as [|x l Hsorted IH Hall]; intros Hnodup; constructor.
  - apply IH. by apply NoDup_cons in Hnodup as [_ ?].
  - apply NoDup_cons in Hnodup as [Hnotin _].
    apply Forall_forall. intros y Hy.
    rewrite Forall_forall in Hall. specialize (Hall y Hy).
    assert (x ≠ y) by (intros ->; done). unfold Nat.lt. lia.
Qed.

(** [a[:, idx]] keeps the rows and gives each the columns [idx], in
    that order. *)
Lemma take_columns_spec (a filtered : ndarray) (idx : list nat) :
  take_columns (Handle := Handle) a idx = Ok filtered →
  Forall (λ i, (i < n_cols a)%nat) idx
  ∧ n_cols filtered = length idx
  ∧ tolist filtered = map (λ row, map (λ i, nth i row false) idx) (tolist a).
Proof.
  unfold take_columns. destruct (decide _) as [Hin|]; [|done].
  by intros [= <-].
Qed.
End Columns.

Section MeasuredColumns.
Context `{!Numerics, !Forest ForestBackend.ResultHandle}.
Import ForestBackend.

Lemma filtered_rows_length (rows : list (list bool)) (idx : list nat) :
  Forall (λ row, length row = length idx)
         (map (λ row, map (λ i, nth i row false) idx) rows).
Proof. apply Forall_map, Forall_forall. intros row _. apply length_map. Qed.

(** [uuid4] never returns the same identifier twice. *)
Hypothesis uuid4_unique : Inj (=) (=) uuid4.

(** C6, for circuits with at least one measurement.  Let [S] be the
    bits [tk_to_pyquil] reports as measured.  The table [get_result]
    returns is the raw table of the QAM restricted to the positions of
    [S] among the bits of the translated circuit, taken in ascending
    order: every row has [length S] entries, and so has the table when
    there is a row at all.  When [S] lists no bit twice the positions
    are strictly ascending. *)
Theorem measured_columns_sorted
    circuits n_shots valid_check kw st handle_list st1 i circuit h res st2 :
  process_circuits circuits n_shots valid_check kw st
    = (Ok handle_list, st1) →
  circuits !! i = Some circuit → handle_list !! i = Some h →
  n_gates_of_type (submitted kw circuit) OpType.Measure ≠ O →
  get_result h st1 = (Ok res, st2) →
  ∃ c0 p S positions pyquil_handle raw table,
    translated kw circuit = Ok c0
    ∧ tk_to_pyquil c0 = Ok (p, S)
    ∧ Forall2 (λ bit j, bits c0 !! j = Some bit) S positions
    ∧ StronglySorted Nat.le (sorted positions)
    ∧ sorted positions ≡ₚ positions
    ∧ (NoDup S → StronglySorted Nat.lt (sorted positions))
    ∧ qam_get_result_ro pyquil_handle = Ok (Some raw)
    ∧ qam_fetched st2 = qam_fetched st1 ++ [pyquil_handle]
    ∧ shots res = Some table
    ∧ readouts table
      = map (λ row, map (λ j, nth j row false) (sorted positions))
            (tolist raw)
    ∧ Forall (λ row, length row = length S) (readouts table)
    ∧ (tolist raw ≠ [] → width table = length S).
Proof.
  intros Hrun Hcircuit Hh Hmeasured Hget.
  destruct (process_circuits_entries uuid4_unique
              _ _ _ _ _ _ _ _ _ _ Hrun Hcircuit Hh)
    as (_ & n & entry & Hentry & c0 & p & S & positions &
        Hc0 & Htk & Hpos & Hidx & Hres).
  rewrite decide_False in Hres by done.
  pose proof (get_result_uncached _ _ _ Hentry Hres) as Hspec.
  rewrite Hget in Hspec.
  destruct Hspec as (raw & filtered & Hraw & Hcols & Hshots & _ & _ & Hfetched).
  apply take_columns_spec in Hcols as (_ & _ & Hrows).
  rewrite Hidx in Hrows.
  pose proof (positions_lookup _ _ _ Hpos) as Hlookup.
  assert (Hlen : length (sorted positions) = length S).
  { rewrite (Permutation_length (sorted_permutation positions)).
    symmetry. by eapply Forall2_length. }
  exists c0, p, S, positions, (handle entry), raw,
    (from_readouts (tolist filtered)).
  repeat split; try done.
  - apply sorted_ascending.
  - apply sorted_permutation.
  - intros Hnodup. apply strictly_ascending; [apply sorted_ascending|].
    rewrite (sorted_permutation positions).
    by eapply positions_NoDup.
  - simpl. rewrite Hrows, <- Hlen. apply filtered_rows_length.
  - intros Hrow. simpl. rewrite Hrows.
    destruct (tolist raw) as [|row rows]; [done|]. simpl.
    by rewrite length_map.
Qed.
End MeasuredColumns.

(** ** Sessions on the shot-based backend *)

Section ForestSessions.
Context `{!Numerics, !Forest ForestBackend.ResultHandle}.
Import ForestBackend.

Lemma circuit_status_completed_cached h st :
  (circuit_status h st).1 = Ok (mkCircuitStatus COMPLETED) ↔ cached st h.
Proof. apply circuit_status_completed_iff. Qed.

(** [get_result] touches no entry but that of its handle, removes
    nothing, and leaves a result cached exactly when it returns one or
    one was cached before. *)
Lemma get_result_effect h st :
  let r := (get_result h st).1 in
  let st' := (get_result h st).2 in
  uuid_drawn st' = uuid_drawn st
  ∧ (∀ h', h' ≠ h → _cache st' !! h' = _cache st !! h')
  ∧ (is_Some (_cache st' !! h) ↔ is_Some (_cache st !! h))
  ∧ (cached st' h ↔ cached st h ∨ ∃ res, r = Ok res).
Proof.
  destruct (_cache st !! h) as [entry|] eqn:Hh.
  - destruct (result entry) as [res|] eqn:Hres.
    + rewrite (get_result_cached _ _ _ _ Hh Hres); simpl.
      repeat split; try done; try by rewrite Hh.
      * by left.
      * intros _. by exists entry, res.
    + pose proof (get_result_uncached _ _ _ Hh Hres) as Hspec.
      destruct (get_result h st) as [[res|e] st'] eqn:Hget; simpl.
      * destruct Hspec as (raw & filtered & _ & _ & _ & Hcache & Hdrawn & _).
        split; [done|]. unfold cached. rewrite Hcache.
        split; [by intros h' Hne; rewrite lookup_insert_ne|].
        rewrite lookup_insert_eq, Hh.
        split; [split; eauto|].
        split; [eauto|]. intros _. by eexists _, res.
      * destruct Hspec as (Hcache & Hdrawn). unfold cached. rewrite Hcache.
        split; [done|]. split; [done|]. split; [by rewrite Hh|].
        split; [by left|]. intros [Hc|[res [=]]]. done.
  - rewrite (get_result_unknown _ _ Hh); simpl.
    split; [done|]. split; [done|]. split; [by rewrite Hh|].
    split; [by left|]. intros [Hc|[res [=]]]. done.
Qed.

Lemma get_result_needs_entry h st res st' :
  get_result h st = (Ok res, st') → is_Some (_cache st !! h).
Proof.
  intros Hget. destruct (_cache st !! h) eqn:Hh; [eauto|].
  rewrite (get_result_unknown _ _ Hh) in Hget. discriminate.
Qed.

(** One call: identifiers are only ever drawn; a handle whose identifier
    the call did not draw keeps its entry, and has a result cached
    afterwards exactly when it had one before or the call was a
    successful [get_result] on it. *)
Lemma call_frame c st :
  let r := (call c st).1 in
  let st' := (call c st).2 in
  (uuid_drawn st ≤ uuid_drawn st')%nat
  ∧ ∀ h, ¬ drawn_between st st' h →
      (is_Some (_cache st' !! h) ↔ is_Some (_cache st !! h))
      ∧ (cached st' h
         ↔ cached st h ∨ (c = GetResult h ∧ ∃ res, r = Result (Ok res))).
Proof.
  destruct c as [circuits n_shots valid_check kw|h0|h0]; simpl.
  - pose proof (process_circuits_frame circuits n_shots valid_check kw st)
      as Hframe.
    destruct (process_circuits circuits n_shots valid_check kw st)
      as [r st']; simpl in *.
    destruct Hframe as (Hle & _ & Hframe). split; [done|].
    intros h Hnot. unfold cached. rewrite (Hframe h Hnot).
    split; [done|]. split; [by left|]. by intros [?|[[=] _]].
  - pose proof (get_result_effect h0 st) as Heffect.
    destruct (get_result h0 st) as [r st']; simpl in *.
    destruct Heffect as (Hdrawn & Hothers & Hknown & Hcached).
    split; [lia|]. intros h _.
    destruct (decide (h = h0)) as [->|Hne].
    + split; [done|]. rewrite Hcached.
      split; (intros [Hc|Hr]; [by left|right]).
      * destruct Hr as [res ->]. eauto.
      * destruct Hr as (_ & res & [= ->]). eauto.
    + unfold cached. rewrite (Hothers h Hne).
      split; [done|]. split; [by left|].
      intros [?|[[= ->] _]]; done.
  - rewrite (surjective_pairing (circuit_status h0 st)).
    rewrite circuit_status_pure; simpl.
    split; [lia|]. intros h _. split; [done|].
    split; [by left|]. by intros [?|[[=] _]].
Qed.

Lemma run_cons c calls st :
  run (c :: calls) st
  = (((c, (call c st).1) :: (run calls (call c st).2).1),
     (run calls (call c st).2).2).
Proof.
  simpl. destruct (call c st) as [r st1]; simpl.
  by destruct (run calls st1).
Qed.

Lemma run_drawn calls st :
  (uuid_drawn st ≤ uuid_drawn (run calls st).2)%nat.
Proof.
  revert st. induction calls as [|c calls IH]; intros st; [simpl; lia|].
  rewrite run_cons; simpl.
  pose proof (call_frame c st) as [Hle _]. specialize (IH (call c st).2). lia.
Qed.

Lemma retrieved_cons c r trace h :
  retrieved ((c, r) :: trace) h
  ↔ (c = GetResult h ∧ ∃ res, r = Result (Ok res)) ∨ retrieved trace h.
Proof.
  unfold retrieved. split.
  - intros [res Hin]. apply elem_of_cons in Hin as [[= <- <-]|Hin]; eauto.
  - intros [[-> [res ->]]|[res Hin]]; exists res;
      [apply list_elem_of_here|by apply list_elem_of_further].
Qed.

(** A handle whose identifier is not drawn again has a result cached at
    the end of a session exactly when it had one at the start or a
    [get_result] on it succeeded in between. *)
Lemma run_cached calls st h :
  ¬ drawn_between st (run calls st).2 h →
  cached (run calls st).2 h ↔ cached st h ∨ retrieved (run calls st).1 h.
Proof.
  revert st. induction calls as [|c calls IH]; intros st.
  - simpl. intros _. split; [by left|]. intros [?|[res Hin]]; [done|].
    by apply elem_of_nil in Hin.
  - rewrite run_cons; simpl. intros Hnot.
    pose proof (call_frame c st) as [Hle Hframe].
    pose proof (run_drawn calls (call c st).2) as Hle'.
    destruct (Hframe h) as [_ Hstep].
    { intros Hd. apply Hnot.
      apply (drawn_between_widen st (call c st).2); auto. }
    rewrite IH, Hstep, retrieved_cons; [tauto|].
    intros Hd. apply Hnot. apply (drawn_between_widen st (call c st).2); auto.
Qed.

Section Unique.
(** [uuid4] never returns the same identifier twice. *)
Hypothesis uuid4_unique : Inj (=) (=) uuid4.

Lemma issued_for_cons c r trace h kw circuit :
  issued_for ((c, r) :: trace) h kw circuit →
  (∃ circuits n_shots valid_check handle_list i,
     c = ProcessCircuits circuits n_shots valid_check kw
     ∧ r = Handles (Ok handle_list)
     ∧ circuits !! i = Some circuit ∧ handle_list !! i = Some h)
  ∨ issued_for trace h kw circuit.
Proof.
  intros (circuits & n_shots & vc & hs & i & Hin & Hc & Hh).
  apply elem_of_cons in Hin as [[= <- <-]|Hin].
  - left. by exists circuits, n_shots, vc, hs, i.
  - right. by exists circuits, n_shots, vc, hs, i.
Qed.

Lemma call_issue circuits n_shots valid_check kw st handle_list i circuit h :
  (call (ProcessCircuits circuits n_shots valid_check kw) st).1
    = Handles (Ok handle_list) →
  circuits !! i = Some circuit → handle_list !! i = Some h →
  let st' := (call (ProcessCircuits circuits n_shots valid_check kw) st).2 in
  drawn_between st st' h
  ∧ (cached st' h
     ↔ n_gates_of_type (submitted kw circuit) OpType.Measure = O).
Proof.
  simpl.
  destruct (process_circuits circuits n_shots valid_check kw st)
    as [r st'] eqn:Hrun; simpl.
  intros [= ->] Hc Hh.
  destruct (process_circuits_entries uuid4_unique
              _ _ _ _ _ _ _ _ _ _ Hrun Hc Hh)
    as (Hd & n & entry & Hentry & c0 & p & S & pos & _ & _ & _ & _ & Hres).
  split; [done|]. unfold cached. rewrite Hentry. split.
  - intros (entry' & res & [= <-] & Hres'). rewrite Hres' in Hres.
    by destruct (decide (_ = O)).
  - intros Hzero. rewrite decide_True in Hres by done. eauto.
Qed.

(** A handle issued during a session had its identifier drawn during
    that session. *)
Lemma issued_drawn calls st h kw circuit :
  issued_for (run calls st).1 h kw circuit →
  drawn_between st (run calls st).2 h.
Proof.
  revert st. induction calls as [|c calls IH]; intros st.
  - simpl. intros (? & ? & ? & ? & ? & Hin & _). by apply elem_of_nil in Hin.
  - rewrite run_cons; simpl. intros Hissued.
    pose proof (call_frame c st) as [Hle _].
    pose proof (run_drawn calls (call c st).2) as Hle'.
    apply (drawn_between_widen st (call c st).2); [done..|].
    apply issued_for_cons in Hissued
      as [(circuits & n_shots & vc & hs & i & -> & Hr & Hc & Hh)|Hissued].
    + left. by eapply call_issue.
    + right. by apply IH.
Qed.

(** The state of the cache for an issued handle, at the end of a
    session that started without it. *)
Lemma issued_cached calls st h kw circuit :
  _cache st !! h = None →
  issued_for (run calls st).1 h kw circuit →
  cached (run calls st).2 h
  ↔ retrieved (run calls st).1 h
    ∨ n_gates_of_type (submitted kw circuit) OpType.Measure = O.
Proof.
  revert st. induction calls as [|c calls IH]; intros st Hnew.
  - simpl. intros (? & ? & ? & ? & ? & Hin & _). by apply elem_of_nil in Hin.
  - rewrite run_cons; simpl. intros Hissued.
    pose proof (call_frame c st) as [Hle Hframe].
    rewrite retrieved_cons.
    apply issued_for_cons in Hissued
      as [(circuits & n_shots & vc & hs & i & -> & Hr & Hc & Hh)|Hissued].
    + (* issued by this call *)
      destruct (call_issue _ _ _ _ _ _ _ _ _ Hr Hc Hh) as [Hd Hcached].
      rewrite run_cached
        by (by apply (not_drawn_later uuid4_unique st)).
      rewrite Hcached. split; [tauto|].
      intros [[[[=] _]|?]|?]; tauto.
    + (* issued later *)
      pose proof (issued_drawn _ _ _ _ _ Hissued) as Hlater.
      assert (Hnot : ¬ drawn_between st (call c st).2 h).
      { intros Hd.
        exact (not_drawn_later uuid4_unique _ _ _ _ Hle Hd Hlater). }
      destruct (Hframe h Hnot) as [Hknown _].
      assert (Hnew' : _cache (call c st).2 !! h = None).
      { apply eq_None_not_Some. rewrite Hknown, Hnew. by intros [? [=]]. }
      rewrite (IH _ Hnew' Hissued). split; [tauto|].
      intros [[[-> [res Hr]]|?]|?]; [|tauto..].
      exfalso. simpl in Hr.
      destruct (get_result h st) as [r st'] eqn:Hget. simpl in Hr.
      injection Hr as ->.
      apply get_result_needs_entry in Hget. rewrite Hnew in Hget.
      by destruct Hget.
Qed.
End Unique.
End ForestSessions.

(** ** The state-based backend *)

Section StateBackend.
Context `{!Numerics, !Wavefunction ForestStateBackend.ResultHandle}.
Import ForestStateBackend.

(** One iteration of the loop of [process_circuits]: when it returns a
    handle, the result computed for the circuit is in the cache under
    that handle, which is the identifier just drawn; when it raises, the
    cache is as before. *)
Lemma state_process_circuit_spec circuit st :
  match process_circuit circuit st with
  | (Ok h, st') =>
      ∃ entry,
        computed_entry circuit entry
        ∧ h = state_uuid4 (uuid_drawn st)
        ∧ _cache st' = <[h := entry]> (_cache st)
        ∧ uuid_drawn st' = S (uuid_drawn st)
  | (Raise _, st') =>
      _cache st' = _cache st
      ∧ (uuid_drawn st ≤ uuid_drawn st' ≤ S (uuid_drawn st))%nat
  end.
Proof.
  unfold process_circuit, bind, lift, draw_uuid, modify, ret.
  destruct (tk_to_pyquil_program circuit) as [p0|e] eqn:Htk; simpl;
    [|split; [done|lia]].
  destruct (add_identities p0 (qubits circuit)) as [p|e] eqn:Hid; simpl;
    [|split; [done|lia]].
  destruct (sim_wavefunction p) as [amplitudes|e] eqn:Hsim; simpl;
    [|split; [done|lia]].
  destruct (adjust_phase circuit amplitudes) as [state|e] eqn:Hadj; simpl;
    [|split; [done|lia]].
  eexists. split; [by exists p0, p, amplitudes, state|done].
Qed.

Lemma state_process_circuit_keeps circuit st h :
  is_Some (_cache st !! h) →
  is_Some (_cache (process_circuit circuit st).2 !! h).
Proof.
  intros Hknown.
  pose proof (state_process_circuit_spec circuit st) as Hspec.
  destruct (process_circuit circuit st) as [[h0|e] st']; simpl.
  - destruct Hspec as (entry & _ & _ & -> & _).
    rewrite lookup_insert_is_Some. destruct (decide (h0 = h)); auto.
  - destruct Hspec as [-> _]. done.
Qed.

Lemma state_process_loop_keeps circuits st h :
  is_Some (_cache st !! h) →
  is_Some (_cache (process_loop circuits st).2 !! h).
Proof.
  revert st. induction circuits as [|circuit circuits IH]; intros st Hknown;
    [done|].
  simpl. unfold bind.
  pose proof (state_process_circuit_keeps circuit st h Hknown) as Hstep.
  destruct (process_circuit circuit st) as [[h0|e] st1]; simpl in *; [|done].
  specialize (IH st1 Hstep).
  by destruct (process_loop circuits st1) as [[hs|e] st2].
Qed.

(** Every handle a completed loop returned is in the cache. *)
Lemma state_process_loop_stores circuits st handle_list st' :
  process_loop circuits st = (Ok handle_list, st') →
  ∀ h, h ∈ handle_list → is_Some (_cache st' !! h).
Proof.
  revert st handle_list.
  induction circuits as [|circuit circuits IH]; intros st hs; simpl.
  - unfold ret. intros [= <- _] h Hin. by apply elem_of_nil in Hin.
  - unfold bind.
    pose proof (state_process_circuit_spec circuit st) as Hspec.
    destruct (process_circuit circuit st) as [[h0|e] st1]; [|done].
    pose proof (state_process_loop_keeps circuits st1 h0) as Hkeep.
    destruct (process_loop circuits st1) as [[hs'|e] st2] eqn:Hloop; [|done].
    unfold ret. intros [= <- <-] h Hin.
    apply elem_of_cons in Hin as [->|Hin]; [|by eapply IH].
    apply Hkeep. destruct Hspec as (entry & _ & _ & -> & _).
    rewrite lookup_insert_eq. eauto.
Qed.

Lemma state_process_circuits_loop circuits valid_check st :
  (∃ e, process_circuits circuits valid_check st = (Raise e, st))
  ∨ process_circuits circuits valid_check st = process_loop circuits st.
Proof.
  unfold process_circuits, bind, lift.
  destruct valid_check; [destruct (state_check_all_circuits circuits)|];
    eauto.
Qed.

Lemma state_circuit_status_cases h st :
  (is_Some (_cache st !! h)
   ∧ circuit_status h st = (Ok (mkCircuitStatus COMPLETED), st))
  ∨ (_cache st !! h = None
     ∧ circuit_status h st = (Raise (CircuitNotRunError h), st)).
Proof.
  unfold circuit_status, bind, get, ret, raise; simpl.
  destruct (_cache st !! h) as [entry|]; [left|right]; eauto.
Qed.

Lemma state_status_completed_known h st :
  (circuit_status h st).1 = Ok (mkCircuitStatus COMPLETED)
  ↔ is_Some (_cache st !! h).
Proof.
  destruct (state_circuit_status_cases h st) as [[Hk ->]|[Hn ->]]; simpl.
  - done.
  - rewrite Hn. split; [done|]. by intros [? [=]].
Qed.

Lemma state_call_keeps c st h :
  is_Some (_cache st !! h) → is_Some (_cache (call c st).2 !! h).
Proof.
  intros Hknown. destruct c as [circuits valid_check|h0]; simpl.
  - destruct (state_process_circuits_loop circuits valid_check st)
      as [[e He]|Hloop].
    + by rewrite He.
    + rewrite Hloop.
      pose proof (state_process_loop_keeps circuits st h Hknown).
      by destruct (process_loop circuits st).
  - destruct (state_circuit_status_cases h0 st) as [[_ ->]|[_ ->]]; done.
Qed.

Lemma state_run_cons c calls st :
  run (c :: calls) st
  = (((c, (call c st).1) :: (run calls (call c st).2).1),
     (run calls (call c st).2).2).
Proof.
  simpl. destruct (call c st) as [r st1]; simpl.
  by destruct (run calls st1).
Qed.

Lemma state_run_keeps calls st h :
  is_Some (_cache st !! h) → is_Some (_cache (run calls st).2 !! h).
Proof.
  revert st. induction calls as [|c calls IH]; intros st Hknown; [done|].
  rewrite state_run_cons; simpl. by apply IH, state_call_keeps.
Qed.

(** A handle issued during a session is in the cache at its end. *)
Lemma state_issued_stored calls st h :
  issued (run calls st).1 h → is_Some (_cache (run calls st).2 !! h).
Proof.
  revert st. induction calls as [|c calls IH]; intros st.
  - simpl. intros (? & ? & ? & Hin & _). by apply elem_of_nil in Hin.
  - rewrite state_run_cons; simpl.
    intros (circuits & valid_check & hs & Hin & Hh).
    apply elem_of_cons in Hin as [[= <- Hr]|Hin].
    + apply state_run_keeps. simpl in *.
      destruct (state_process_circuits_loop circuits valid_check st)
        as [[e He]|Hloop]; [by rewrite He in Hr|].
      rewrite Hloop in *.
      destruct (process_loop circuits st) as [r st1] eqn:Hrun; simpl in *.
      injection Hr as <-. by eapply state_process_loop_stores.
    + apply IH. by exists circuits, valid_check, hs.
Qed.

(** *** What is in the cache, and since when *)

(** The handles in the cache after the loop are those that were in it
    before and those of the iterations that ran to their end. *)
Lemma state_process_loop_known circuits st h :
  is_Some (_cache (process_loop circuits st).2 !! h)
  ↔ is_Some (_cache st !! h) ∨ h ∈ stored_by_loop circuits st.
Proof.
  revert st. induction circuits as [|circuit circuits IH]; intros st; simpl.
  - rewrite elem_of_nil. tauto.
  - unfold bind.
    pose proof (state_process_circuit_spec circuit st) as Hspec.
    destruct (process_circuit circuit st) as [[h0|e] st1]; simpl.
    + destruct Hspec as (entry & _ & _ & Hcache & _).
      specialize (IH st1). rewrite Hcache, lookup_insert_is_Some in IH.
      rewrite elem_of_cons.
      destruct (process_loop circuits st1) as [[hs|e] st2]; simpl in *;
        rewrite IH; destruct (decide (h0 = h)) as [->|];
        intuition congruence.
    + destruct Hspec as [-> _]. rewrite elem_of_nil. tauto.
Qed.

Lemma state_call_known c st h :
  is_Some (_cache (call c st).2 !! h)
  ↔ is_Some (_cache st !! h) ∨ h ∈ stored_by c st.
Proof.
  destruct c as [circuits valid_check|h0]; simpl.
  - unfold process_circuits, bind, lift.
    destruct (if valid_check then state_check_all_circuits circuits
              else Ok tt) as [[]|e]; simpl.
    + rewrite <- state_process_loop_known.
      by destruct (process_loop circuits st).
    + rewrite elem_of_nil. tauto.
  - rewrite elem_of_nil.
    destruct (state_circuit_status_cases h0 st) as [[_ ->]|[_ ->]]; simpl;
      tauto.
Qed.

Lemma state_run_known calls st h :
  is_Some (_cache (run calls st).2 !! h)
  ↔ is_Some (_cache st !! h) ∨ h ∈ stored_in_session calls st.
Proof.
  revert st. induction calls as [|c calls IH]; intros st.
  - simpl. rewrite elem_of_nil. tauto.
  - rewrite state_run_cons; simpl.
    rewrite IH, state_call_known, elem_of_app. tauto.
Qed.

(** The handles a call returns are those its loop stored a result for. *)
Lemma state_loop_stored_handles circuits st handle_list st' :
  process_loop circuits st = (Ok handle_list, st') →
  stored_by_loop circuits st = handle_list.
Proof.
  revert st handle_list.
  induction circuits as [|circuit circuits IH]; intros st hs; simpl.
  - unfold ret. by intros [= <- _].
  - unfold bind.
    destruct (process_circuit circuit st) as [[h0|e] st1]; [|done].
    destruct (process_loop circuits st1) as [[hs'|e] st2] eqn:Hloop; [|done].
    unfold ret. intros [= <- <-]. f_equal. by eapply IH.
Qed.

Lemma state_process_circuit_frame circuit st :
  let st' := (process_circuit circuit st).2 in
  (uuid_drawn st ≤ uuid_drawn st')%nat
  ∧ ∀ h, ¬ drawn_between st st' h → _cache st' !! h = _cache st !! h.
Proof.
  pose proof (state_process_circuit_spec circuit st) as Hspec.
  destruct (process_circuit circuit st) as [[h0|e] st']; simpl.
  - destruct Hspec as (entry & _ & Hh0 & Hcache & Hdrawn).
    split; [lia|]. intros h Hnot.
    rewrite Hcache. apply lookup_insert_ne. intros <-.
    apply Hnot. exists (uuid_drawn st). split; [lia|done].
  - destruct Hspec as (Hcache & Hdrawn).
    split; [lia|]. intros. by rewrite Hcache.
Qed.

Lemma state_drawn_between_widen st0 st1 st2 h :
  (uuid_drawn st0 ≤ uuid_drawn st1)%nat →
  (uuid_drawn st1 ≤ uuid_drawn st2)%nat →
  drawn_between st0 st1 h ∨ drawn_between st1 st2 h →
  drawn_between st0 st2 h.
Proof.
  intros H01 H12 [(k & Hk & Hh)|(k & Hk & Hh)]; exists k; split; (lia || done).
Qed.

Lemma state_process_loop_frame circuits st :
  let st' := (process_loop circuits st).2 in
  (uuid_drawn st ≤ uuid_drawn st')%nat
  ∧ ∀ h, ¬ drawn_between st st' h → _cache st' !! h = _cache st !! h.
Proof.
  revert st. induction circuits as [|circuit circuits IH]; intros st; simpl.
  - split; [lia|done].
  - unfold bind.
    pose proof (state_process_circuit_frame circuit st) as Hstep.
    destruct (process_circuit circuit st) as [[h0|e] st1];
      simpl in *; [|done].
    destruct Hstep as (Hle1 & Hframe1).
    specialize (IH st1).
    destruct (process_loop circuits st1) as [[hs|e] st2]; simpl in *;
      destruct IH as (Hle2 & Hframe2).
    all: split; [lia|]; intros h Hnot.
    all: rewrite Hframe2; [rewrite Hframe1; [done|]|].
    all: intros Hd; apply Hnot;
      apply (state_drawn_between_widen st st1 st2); auto.
Qed.

Lemma state_call_frame c st :
  let st' := (call c st).2 in
  (uuid_drawn st ≤ uuid_drawn st')%nat
  ∧ ∀ h, ¬ drawn_between st st' h → _cache st' !! h = _cache st !! h.
Proof.
  destruct c as [circuits valid_check|h0]; simpl.
  - destruct (state_process_circuits_loop circuits valid_check st)
      as [[e ->]| ->]; [simpl; split; [lia|done]|].
    pose proof (state_process_loop_frame circuits st) as Hloop.
    by destruct (process_loop circuits st).
  - destruct (state_circuit_status_cases h0 st) as [[_ ->]|[_ ->]]; simpl;
      (split; [lia|done]).
Qed.

Lemma state_run_frame calls st :
  let st' := (run calls st).2 in
  (uuid_drawn st ≤ uuid_drawn st')%nat
  ∧ ∀ h, ¬ drawn_between st st' h → _cache st' !! h = _cache st !! h.
Proof.
  revert st. induction calls as [|c calls IH]; intros st.
  - simpl. split; [lia|done].
  - rewrite state_run_cons; simpl.
    destruct (state_call_frame c st) as [Hle1 Hframe1].
    destruct (IH (call c st).2) as [Hle2 Hframe2].
    split; [lia|]. intros h Hnot.
    rewrite Hframe2; [rewrite Hframe1; [done|]|].
    all: intros Hd; apply Hnot;
      apply (state_drawn_between_widen st (call c st).2); auto.
Qed.

Lemma state_issued_for_issued trace h circuit :
  issued_for trace h circuit → issued trace h.
Proof.
  intros (circuits & vc & hs & i & Hin & _ & Hh).
  exists circuits, vc, hs. split; [done|]. by eapply list_elem_of_lookup_2.
Qed.

Section Unique.
(** [uuid4] never returns the same identifier twice. *)
Hypothesis state_uuid4_unique : Inj (=) (=) state_uuid4.

Lemma state_not_drawn_later st0 st1 st2 h :
  (uuid_drawn st0 ≤ uuid_drawn st1)%nat →
  drawn_between st0 st1 h → ¬ drawn_between st1 st2 h.
Proof.
  intros Hle (k & Hk & Hh) (k' & Hk' & Hh').
  rewrite Hh in Hh'. apply state_uuid4_unique in Hh'. lia.
Qed.

(** The entry of every handle a completed loop returned holds the result
    computed for its circuit. *)
Lemma state_process_loop_entries circuits st handle_list st' :
  process_loop circuits st = (Ok handle_list, st') →
  ∀ i circuit h,
    circuits !! i = Some circuit → handle_list !! i = Some h →
    drawn_between st st' h
    ∧ ∃ entry, _cache st' !! h = Some entry ∧ computed_entry circuit entry.
Proof.
  revert st handle_list.
  induction circuits as [|circuit0 circuits IH]; intros st hs; simpl;
    [intros _ i ? ? Hi; by rewrite lookup_nil in Hi|].
  unfold bind.
  pose proof (state_process_circuit_spec circuit0 st) as Hspec.
  pose proof (state_process_circuit_frame circuit0 st) as Hstep.
  destruct (process_circuit circuit0 st) as [[h0|e] st1];
    simpl in *; [|done].
  pose proof (state_process_loop_frame circuits st1) as Hrest.
  specialize (IH st1).
  destruct (process_loop circuits st1) as [[hs'|e] st2]; simpl in *; [|done].
  unfold ret. intros [= <- <-].
  destruct Hstep as (Hle1 & _). destruct Hrest as (Hle2 & Hframe2).
  destruct Hspec as (entry0 & Hcomputed & Hh0 & Hcache & Hdrawn).
  assert (Hd0 : drawn_between st st1 h0).
  { exists (uuid_drawn st). split; [lia|done]. }
  intros [|i] circuit h Hcircuit Hh; simpl in *.
  - injection Hcircuit as <-. injection Hh as <-.
    split; [apply (state_drawn_between_widen st st1 st2); auto|].
    exists entry0. split; [|done].
    rewrite Hframe2 by (by apply (state_not_drawn_later st st1 st2)).
    by rewrite Hcache, lookup_insert_eq.
  - destruct (IH _ eq_refl i circuit h Hcircuit Hh) as (Hd & Hentry).
    split; [apply (state_drawn_between_widen st st1 st2); auto|done].
Qed.

Lemma state_process_circuits_entries
    circuits valid_check st handle_list st' i circuit h :
  process_circuits circuits valid_check st = (Ok handle_list, st') →
  circuits !! i = Some circuit → handle_list !! i = Some h →
  drawn_between st st' h
  ∧ ∃ entry, _cache st' !! h = Some entry ∧ computed_entry circuit entry.
Proof.
  intros Hrun Hcircuit Hh.
  destruct (state_process_circuits_loop circuits valid_check st)
    as [[e He]|Hloop]; [congruence|].
  rewrite Hloop in Hrun.
  by apply (state_process_loop_entries _ _ _ _ Hrun i).
Qed.

(** The entry of a handle issued for a circuit during a session holds,
    at the end of the session, the result computed for that circuit. *)
Lemma state_issued_entry calls st h circuit :
  issued_for (run calls st).1 h circuit →
  drawn_between st (run calls st).2 h
  ∧ ∃ entry,
      _cache (run calls st).2 !! h = Some entry ∧ computed_entry circuit entry.
Proof.
  revert st. induction calls as [|c calls IH]; intros st.
  - simpl. intros (? & ? & ? & ? & Hin & _). by apply elem_of_nil in Hin.
  - rewrite state_run_cons; simpl.
    destruct (state_call_frame c st) as [Hle1 _].
    destruct (state_run_frame calls (call c st).2) as [Hle2 Hframe2].
    intros (circuits & vc & hs & i & Hin & Hc & Hh).
    apply elem_of_cons in Hin as [[= <- Hr]|Hin].
    + simpl in *.
      destruct (process_circuits circuits vc st) as [r st1] eqn:Hrun;
        simpl in *.
      injection Hr as <-.
      destruct (state_process_circuits_entries _ _ _ _ _ _ _ _ Hrun Hc Hh)
        as (Hd & entry & Hentry & Hcomputed).
      split; [apply (state_drawn_between_widen st st1); auto|].
      exists entry. split; [|done].
      rewrite Hframe2; [done|].
      by apply (state_not_drawn_later st st1).
    + destruct (IH (call c st).2) as (Hd & Hentry).
      { by exists circuits, vc, hs, i. }
      split; [apply (state_drawn_between_widen st (call c st).2); auto|done].
Qed.

(** C8. For every circuit of a batch whose phase converts to the float
    [x], the entry cached under the handle returned for that circuit
    holds the amplitudes the simulator gave for the program of that
    circuit (its translation, with an identity added on every qubit),
    each multiplied by [np_exp (x * np_pi * 1j)]. *)
Theorem state_scaled_by_global_phase
    circuits valid_check st handle_list st' i circuit h x :
  process_circuits circuits valid_check st = (Ok handle_list, st') →
  circuits !! i = Some circuit → handle_list !! i = Some h →
  float_of_Expr (phase circuit) = Converted x →
  ∃ p0 p amplitudes entry,
    tk_to_pyquil_program circuit = Ok p0
    ∧ add_identities p0 (qubits circuit) = Ok p
    ∧ sim_wavefunction p = Ok amplitudes
    ∧ _cache st' !! h = Some entry
    ∧ state (result entry)
      = Some (map (λ amplitude,
                     complex_mul amplitude
                       (np_exp (times_1j (float_mul x np_pi))))
                  amplitudes).
Proof.
  intros Hrun Hcircuit Hh Hphase.
  destruct (state_process_circuits_entries _ _ _ _ _ _ _ _ Hrun Hcircuit Hh)
    as (_ & entry & Hentry & p0 & p & amplitudes & state & Htk & Hid & Hsim
        & Hadj & ->).
  exists p0, p, amplitudes. eexists. do 4 (split; [done|]).
  simpl. unfold adjust_phase in Hadj. rewrite Hphase in Hadj.
  by injection Hadj as <-.
Qed.

End Unique.

(** C10. On [ForestStateBackend] a call of [circuit_status] either
    returns [COMPLETED], when the handle is in the cache, or raises
    [CircuitNotRunError], when it is not; it changes nothing.
    [process_circuits] writes the result of every handle it returns into
    the cache, and the entry stays: at the end of a session the status
    of every handle issued during it is [COMPLETED], and the entry of a
    handle issued for a circuit holds the result computed for that
    circuit: the simulator's amplitudes for its program, adjusted for
    the phase, with the qubits in the order of the result (as long as
    [uuid4] never returns the same identifier twice, so that no later
    circuit overwrites the entry). *)
Theorem state_status_always_completed calls st h :
  issued (run calls st).1 h →
  circuit_status h (run calls st).2
    = (Ok (mkCircuitStatus COMPLETED), (run calls st).2)
  ∧ (∃ entry, _cache (run calls st).2 !! h = Some entry)
  ∧ (Inj (=) (=) state_uuid4 →
     ∀ circuit,
       issued_for (run calls st).1 h circuit →
       ∃ entry,
         _cache (run calls st).2 !! h = Some entry
         ∧ computed_entry circuit entry)
  ∧ ∀ h' st',
      (circuit_status h' st' = (Ok (mkCircuitStatus COMPLETED), st')
       ∧ is_Some (_cache st' !! h'))
      ∨ (circuit_status h' st' = (Raise (CircuitNotRunError h'), st')
         ∧ _cache st' !! h' = None).
Proof.
  intros Hissued. apply state_issued_stored in Hissued.
  split; [|split; [done|split]].
  - destruct (state_circuit_status_cases h (run calls st).2)
      as [[_ ->]|[Hnone _]]; [done|].
    rewrite Hnone in Hissued. by destruct Hissued.
  - intros Hunique circuit Hfor. by apply state_issued_entry.
  - intros h' st'.
    destruct (state_circuit_status_cases h' st') as [[? ->]|[? ->]]; auto.
Qed.
End StateBackend.

(** ** Expectation values *)

Section Expectation.
Context `{!Numerics, !Wavefunction ForestStateBackend.ResultHandle}.
Import ForestStateBackend.

Lemma default_q_index_ok (q : Qubit) :
  in_default_register q →
  _default_q_index (Handle := ResultHandle) q = Ok (canonical_index q).
Proof.
  intros [Hname Hlen]. unfold _default_q_index, canonical_index.
  rewrite decide_False by (intros [?|?]; done).
  destruct (index q) as [|i rest]; [done|reflexivity].
Qed.

Lemma default_q_index_fails (q : Qubit) :
  ¬ in_default_register q →
  _default_q_index (Handle := ResultHandle) q
  = Raise (ValueError "Non-default qubit register").
Proof.
  intros Hout. unfold _default_q_index.
  rewrite decide_True; [done|].
  destruct (decide (reg_name q = "q"%string)) as [Hname|]; [|by left].
  destruct (decide (length (index q) = 1%nat)) as [Hlen|]; [|by right].
  destruct Hout. by split.
Qed.

Lemma in_default_register_dec (q : Qubit) : Decision (in_default_register q).
Proof. unfold in_default_register. apply _. Qed.

Lemma default_q_index_cases (q : Qubit) :
  _default_q_index (Handle := ResultHandle) q = Ok (canonical_index q)
  ∨ _default_q_index (Handle := ResultHandle) q
    = Raise (ValueError "Non-default qubit register").
Proof.
  destruct (in_default_register_dec q);
    [left; by apply default_q_index_ok|right; by apply default_q_index_fails].
Qed.

Lemma gen_factors_ok (items : QubitPauliString) (pauli_term : PauliTerm_t) :
  Forall (λ qp, in_default_register qp.1) items →
  gen_factors pauli_term items
  = Ok (foldl (λ acc '(q, p),
                 PauliTerm_mul acc
                   (PauliTerm (Pauli_name p) (canonical_index q)))
              pauli_term items).
Proof.
  intros Hall. revert pauli_term.
  induction Hall as [|[q p] items Hq _ IH]; intros pauli_term; simpl; [done|].
  rewrite (default_q_index_ok q Hq). simpl. apply IH.
Qed.

Lemma gen_factors_fails (items : QubitPauliString) (pauli_term : PauliTerm_t) :
  Exists (λ qp, ¬ in_default_register qp.1) items →
  gen_factors pauli_term items
  = Raise (ValueError "Non-default qubit register").
Proof.
  intros Hex. revert pauli_term.
  induction Hex as [[q p] items Hq|[q p] items _ IH]; intros pauli_term; simpl.
  - by rewrite (default_q_index_fails q Hq).
  - destruct (default_q_index_cases q) as [-> | ->]; simpl; [apply IH|done].
Qed.

Lemma gen_PauliTerm_ok term coeff :
  Forall (λ qp, in_default_register qp.1) term →
  _gen_PauliTerm term coeff = Ok (keyed_term term coeff).
Proof. apply gen_factors_ok. Qed.

Lemma gen_PauliTerm_fails term coeff :
  Exists (λ qp, ¬ in_default_register qp.1) term →
  _gen_PauliTerm term coeff = Raise (ValueError "Non-default qubit register").
Proof. apply gen_factors_fails. Qed.

Lemma gen_PauliTerm_cases term coeff :
  _gen_PauliTerm term coeff = Ok (keyed_term term coeff)
  ∨ _gen_PauliTerm term coeff = Raise (ValueError "Non-default qubit register").
Proof.
  destruct (Forall_Exists_dec
              (λ qp : Qubit * Pauli, in_default_register qp.1)
              (λ qp : Qubit * Pauli, ¬ in_default_register qp.1)
              (λ qp, in_default_register_dec qp.1) term) as [Hall|Hex].
  - left. by apply gen_PauliTerm_ok.
  - right. by apply gen_PauliTerm_fails.
Qed.

Lemma operator_terms_ok (operator : list (QubitPauliString * complex)) :
  Forall (λ tc, Forall (λ qp, in_default_register qp.1) tc.1) operator →
  exc_mapM (λ '(term, coeff), _gen_PauliTerm term coeff) operator
  = Ok (map (λ '(term, coeff), keyed_term term coeff) operator).
Proof.
  induction 1 as [|[term coeff] operator Hterm _ IH]; simpl; [done|].
  by rewrite (gen_PauliTerm_ok term coeff Hterm), IH.
Qed.

Lemma operator_terms_fail (operator : list (QubitPauliString * complex)) :
  Exists (λ tc, Exists (λ qp, ¬ in_default_register qp.1) tc.1) operator →
  exc_mapM (λ '(term, coeff), _gen_PauliTerm term coeff) operator
  = Raise (ValueError "Non-default qubit register").
Proof.
  induction 1 as [[term coeff] operator Hterm|[term coeff] operator _ IH];
    simpl.
  - by rewrite (gen_PauliTerm_fails term coeff Hterm).
  - destruct (gen_PauliTerm_cases term coeff) as [-> | ->]; simpl; [|done].
    by rewrite IH.
Qed.

(** C9, as the code has it.  Both expectation operations translate the
    state circuit first: when the translation raises, the call fails
    with that error, whatever the observable.  When the circuit
    translates, they raise [ValueError] ("Non-default qubit register")
    if a qubit of the observable is not in the default register, and
    otherwise hand the simulator the Pauli term (or the sum of the Pauli
    terms) whose factors are keyed by the canonical indices of the
    qubits. *)
Theorem expectation_checks_default_register state_circuit :
  (∀ e,
     tk_to_pyquil_program state_circuit = Raise e →
     (∀ pauli, get_pauli_expectation_value state_circuit pauli = Raise e)
     ∧ (∀ operator,
          get_operator_expectation_value state_circuit operator = Raise e))
  ∧ (∀ prog,
       tk_to_pyquil_program state_circuit = Ok prog →
       (∀ pauli,
          (Exists (λ qp, ¬ in_default_register qp.1) pauli →
           get_pauli_expectation_value state_circuit pauli
           = Raise (ValueError "Non-default qubit register"))
          ∧ (Forall (λ qp, in_default_register qp.1) pauli →
             get_pauli_expectation_value state_circuit pauli
             = sim_expectation_terms prog [keyed_term pauli complex_one]))
       ∧ (∀ operator,
            (Exists (λ tc, Exists (λ qp, ¬ in_default_register qp.1) tc.1)
                    operator →
             get_operator_expectation_value state_circuit operator
             = Raise (ValueError "Non-default qubit register"))
            ∧ (Forall (λ tc, Forall (λ qp, in_default_register qp.1) tc.1)
                      operator →
               get_operator_expectation_value state_circuit operator
               = sim_expectation_sum prog
                   (PauliSum (map (λ '(term, coeff), keyed_term term coeff)
                                  operator))))).
Proof.
  unfold get_pauli_expectation_value, get_operator_expectation_value.
  split.
  - intros e ->. split; done.
  - intros prog ->; simpl. split.
    + intros pauli. split; intros Hq.
      * by rewrite (gen_PauliTerm_fails _ _ Hq).
      * by rewrite (gen_PauliTerm_ok _ _ Hq).
    + intros operator. split; intros Hq.
      * by rewrite (operator_terms_fail _ Hq).
      * by rewrite (operator_terms_ok _ Hq).
Qed.
End Expectation.

(** ** When a handle is reported as completed *)

Section Completion.
Context `{!Numerics, !Forest ForestBackend.ResultHandle,
          !Wavefunction ForestStateBackend.ResultHandle}.

(** [uuid4] never returns the same identifier twice. *)
Hypothesis uuid4_unique : Inj (=) (=) uuid4.

(** C5, as the code has it.  On [ForestBackend], at the end of a
    session started on a fresh backend, the status of a handle issued
    for a circuit is [COMPLETED] exactly when a [get_result] on it
    succeeded during the session or the circuit had no [Measure] gate
    when it was submitted.  On [ForestStateBackend], at the end of a
    session started on a fresh backend, the status of a handle is
    [COMPLETED] exactly when an iteration of the loop of a
    [process_circuits] of the session computed a state vector and stored
    it under that handle; every handle the session issued is one of
    those. *)
Theorem completed_iff_retrieved_or_unmeasured
    (calls : list ForestBackend.Call) (h : ForestBackend.ResultHandle)
    (kw : ForestBackend.Kwargs) (circuit : Circuit)
    (state_calls : list ForestStateBackend.Call)
    (state_h : ForestStateBackend.ResultHandle) :
  let trace := (ForestBackend.run calls ForestBackend.init).1 in
  let st := (ForestBackend.run calls ForestBackend.init).2 in
  let state_trace :=
    (ForestStateBackend.run state_calls ForestStateBackend.init).1 in
  let state_st :=
    (ForestStateBackend.run state_calls ForestStateBackend.init).2 in
  (ForestBackend.issued_for trace h kw circuit →
   ((ForestBackend.circuit_status h st).1 = Ok (mkCircuitStatus COMPLETED)
    ↔ ForestBackend.retrieved trace h
      ∨ n_gates_of_type (ForestBackend.submitted kw circuit) OpType.Measure
        = O))
  ∧ ((ForestStateBackend.circuit_status state_h state_st).1
     = Ok (mkCircuitStatus COMPLETED)
     ↔ state_h
       ∈ ForestStateBackend.stored_in_session state_calls
           ForestStateBackend.init)
  ∧ (ForestStateBackend.issued state_trace state_h →
     state_h
     ∈ ForestStateBackend.stored_in_session state_calls
         ForestStateBackend.init).
Proof.
  intros trace st state_trace state_st.
  assert (Hknown : is_Some (ForestStateBackend._cache state_st !! state_h)
                   ↔ state_h
                     ∈ ForestStateBackend.stored_in_session state_calls
                         ForestStateBackend.init).
  { unfold state_st. rewrite state_run_known. simpl. rewrite lookup_empty.
    split; [intros [[? [=]]|?]; done|auto]. }
  split; [|split].
  - intros Hissued. unfold st, trace. rewrite circuit_status_completed_cached.
    by apply issued_cached.
  - by rewrite state_status_completed_known.
  - intros Hstate. apply Hknown. by apply state_issued_stored.
Qed.
End Completion.

(** ** The properties on the test target *)

Section OnTestTarget.
Import TestTarget.

Lemma test_uuid4_unique : Inj (=) (=) (uuid4 (Forest := forest)).
Proof. intros m n. apply Nat2Z.inj. Qed.

Lemma after_unmeasured_entry :
  ForestBackend._cache after_unmeasured !! first_handle
  = Some {| ForestBackend.handle :=
              {| instructions := commands unmeasured_circuit;
                 ro_size := 1; num_shots := 10 |};
            ForestBackend.bit_indices := [];
            ForestBackend.result := Some (empty_result unmeasured_circuit 10) |}.
Proof. vm_compute. reflexivity. Qed.

Lemma submit_only_trace :
  (ForestBackend.run submit_only ForestBackend.init).1
  = [(ForestBackend.ProcessCircuits [unmeasured_circuit] (NShotsInt 10) true
        no_kwargs,
      ForestBackend.Handles (Ok [first_handle]))].
Proof. vm_compute. reflexivity. Qed.

Lemma submit_only_state :
  (ForestBackend.run submit_only ForestBackend.init).2 = after_unmeasured.
Proof. vm_compute. reflexivity. Qed.

(** The cached empty result of the unmeasured circuit is returned as it
    is, with no fetch. *)
Lemma get_result_cached_no_fetch_witness :
  ForestBackend.get_result first_handle after_unmeasured
  = (Ok (empty_result unmeasured_circuit 10), after_unmeasured)
  ∧ ForestBackend.get_result first_handle
      (ForestBackend.get_result first_handle after_unmeasured).2
    = (Ok (empty_result unmeasured_circuit 10), after_unmeasured)
  ∧ ForestBackend._cache
      (ForestBackend.get_result first_handle
         after_unmeasured).2
    = ForestBackend._cache after_unmeasured
  ∧ ForestBackend.qam_fetched
      (ForestBackend.get_result first_handle
         after_unmeasured).2
    = ForestBackend.qam_fetched after_unmeasured.
Proof.
  eapply get_result_cached_no_fetch.
  - vm_compute. reflexivity.
  - reflexivity.
Defined.


(** The measured circuit: both bits are measured, the table has two
    columns. *)
Lemma measured_columns_sorted_witness :
  ∃ c0 p S positions pyquil_handle raw table,
    ForestBackend.translated no_kwargs measured_circuit
    = Ok c0
    ∧ tk_to_pyquil c0 = Ok (p, S)
    ∧ Forall2 (λ bit j, bits c0 !! j = Some bit) S positions
    ∧ StronglySorted Nat.le (sorted positions)
    ∧ sorted positions ≡ₚ positions
    ∧ (NoDup S → StronglySorted Nat.lt (sorted positions))
    ∧ qam_get_result_ro pyquil_handle = Ok (Some raw)
    ∧ ForestBackend.qam_fetched
        (ForestBackend.get_result first_handle
           after_measured).2
      = ForestBackend.qam_fetched after_measured ++ [pyquil_handle]
    ∧ shots retrieved_result = Some table
    ∧ readouts table
      = map (λ row, map (λ j, nth j row false) (sorted positions)) (tolist raw)
    ∧ Forall (λ row, length row = length S) (readouts table)
    ∧ (tolist raw ≠ [] → width table = length S).
Proof.
  apply (measured_columns_sorted test_uuid4_unique
           [measured_circuit] (NShotsInt 2) true
           no_kwargs ForestBackend.init
           [first_handle] after_measured
           0%nat measured_circuit first_handle
           retrieved_result
           (ForestBackend.get_result first_handle
              after_measured).2).
  - vm_compute. reflexivity.
  - reflexivity.
  - reflexivity.
  - vm_compute. discriminate.
  - vm_compute. reflexivity.
Defined.

Lemma submit_and_retrieve_trace :
  (ForestBackend.run submit_and_retrieve ForestBackend.init).1
  = [(ForestBackend.ProcessCircuits [measured_circuit] (NShotsInt 2) true
        no_kwargs,
      ForestBackend.Handles (Ok [first_handle]));
     (ForestBackend.GetResult first_handle,
      ForestBackend.Result (Ok retrieved_result))].
Proof. vm_compute. reflexivity. Qed.

Lemma state_session_trace :
  (ForestStateBackend.run state_session ForestStateBackend.init).1
  = [(ForestStateBackend.ProcessCircuits [unmeasured_circuit] true,
      ForestStateBackend.Handles (Ok [0]))].
Proof. vm_compute. reflexivity. Qed.

Lemma submit_and_retrieve_issued :
  ForestBackend.issued_for
    (ForestBackend.run submit_and_retrieve ForestBackend.init).1
    first_handle no_kwargs measured_circuit.
Proof.
  rewrite submit_and_retrieve_trace.
  exists [measured_circuit], (NShotsInt 2), true, [first_handle], O.
  split; [apply list_elem_of_here|]. split; reflexivity.
Qed.

Lemma state_session_issued :
  ForestStateBackend.issued
    (ForestStateBackend.run state_session ForestStateBackend.init).1 0.
Proof.
  rewrite state_session_trace.
  exists [unmeasured_circuit], true, [0].
  split; apply list_elem_of_here.
Qed.

(** The measured circuit is completed once its result has been
    retrieved; on the state-based backend the handle of the submitted
    circuit is completed, its state vector having been stored by the
    submission. *)
Lemma completed_iff_retrieved_or_unmeasured_witness :
  ((ForestBackend.circuit_status first_handle
      (ForestBackend.run submit_and_retrieve ForestBackend.init).2).1
   = Ok (mkCircuitStatus COMPLETED)
   ↔ ForestBackend.retrieved
       (ForestBackend.run submit_and_retrieve ForestBackend.init).1
       first_handle
     ∨ n_gates_of_type (ForestBackend.submitted no_kwargs measured_circuit)
         OpType.Measure = O)
  ∧ ((ForestStateBackend.circuit_status 0
        (ForestStateBackend.run state_session ForestStateBackend.init).2).1
     = Ok (mkCircuitStatus COMPLETED)
     ↔ 0 ∈ ForestStateBackend.stored_in_session state_session
             ForestStateBackend.init)
  ∧ 0 ∈ ForestStateBackend.stored_in_session state_session
          ForestStateBackend.init.
Proof.
  destruct (completed_iff_retrieved_or_unmeasured test_uuid4_unique
              submit_and_retrieve first_handle no_kwargs measured_circuit
              state_session 0) as (Hshots & Hstate & Hissued).
  split; [exact (Hshots submit_and_retrieve_issued)|].
  split; [exact Hstate|exact (Hissued state_session_issued)].
Defined.

(** C5, as stated, fails for the unmeasured circuit: right after its
    submission its status is [COMPLETED] although no [get_result] was
    ever called. *)
Lemma completed_without_retrieval :
  ¬ ((ForestBackend.circuit_status first_handle
        (ForestBackend.run submit_only ForestBackend.init).2).1
     = Ok (mkCircuitStatus COMPLETED)
     ↔ ForestBackend.retrieved
         (ForestBackend.run submit_only ForestBackend.init).1 first_handle).
Proof.
  rewrite submit_only_trace. intros [Hcompleted _].
  destruct Hcompleted as [res Hin]; [vm_compute; reflexivity|].
  apply elem_of_cons in Hin as [[=]|Hin]. by apply elem_of_nil in Hin.
Qed.

(** C6, as stated, fails for the unmeasured circuit: no bit is measured,
    yet the table of its result has one column, the one of its only bit. *)
Lemma unmeasured_table_has_columns :
  ¬ (∀ res st2 p S table,
       ForestBackend.get_result first_handle after_unmeasured = (Ok res, st2) →
       tk_to_pyquil unmeasured_circuit = Ok (p, S) →
       shots res = Some table →
       width table = length S
       ∧ Forall (λ row, length row = length S) (readouts table)).
Proof.
  intros Hclaim.
  destruct (Hclaim (empty_result unmeasured_circuit 10) after_unmeasured
              {| instructions := commands unmeasured_circuit;
                 ro_size := 1; num_shots := 1 |}
              [] (from_readouts (replicate 10 [false]))) as [Hwidth _].
  - apply (get_result_cached _ _ _ _ after_unmeasured_entry). reflexivity.
  - reflexivity.
  - reflexivity.
  - discriminate Hwidth.
Qed.

Lemma test_state_uuid4_unique :
  Inj (=) (=) (state_uuid4 (Wavefunction := wavefunction)).
Proof. intros m n. apply Nat2Z.inj. Qed.

(** The second circuit of a batch of two on the state-based backend, with
    phase 1. *)
Lemma state_scaled_by_global_phase_witness :
  ∃ p0 p amplitudes entry,
    tk_to_pyquil_program unmeasured_circuit = Ok p0
    ∧ ForestStateBackend.add_identities p0 (qubits unmeasured_circuit) = Ok p
    ∧ sim_wavefunction p = Ok amplitudes
    ∧ ForestStateBackend._cache
        (ForestStateBackend.process_circuits
           [measured_circuit; unmeasured_circuit] true
           ForestStateBackend.init).2 !! 1
      = Some entry
    ∧ state (ForestStateBackend.result entry)
      = Some (map (λ amplitude,
                     complex_mul amplitude
                       (np_exp (times_1j (float_mul 1 np_pi))))
                  amplitudes).
Proof.
  apply (state_scaled_by_global_phase test_state_uuid4_unique
           [measured_circuit; unmeasured_circuit] true
           ForestStateBackend.init [0; 1]
           (ForestStateBackend.process_circuits
              [measured_circuit; unmeasured_circuit] true
              ForestStateBackend.init).2
           1%nat unmeasured_circuit 1 1).
  - vm_compute. reflexivity.
  - reflexivity.
  - reflexivity.
  - reflexivity.
Defined.

(** A state circuit the translation refuses makes the call fail with the
    error of the translation; for a circuit that translates, a string
    over the default register is evaluated and a string with a qubit of
    another register is refused. *)
Lemma expectation_checks_default_register_witness :
  ForestStateBackend.get_pauli_expectation_value
    (Wavefunction0 := strict_wavefunction) two_register_circuit foreign_string
  = Raise (ExternalError "NotImplementedError")
  ∧ ForestStateBackend.get_pauli_expectation_value measured_circuit
      foreign_string
    = Raise (ValueError "Non-default qubit register")
  ∧ ForestStateBackend.get_pauli_expectation_value measured_circuit
      default_string
    = sim_expectation_terms
        (commands measured_circuit : QuilProgram (Wavefunction := wavefunction))
        [ForestStateBackend.keyed_term default_string complex_one].
Proof.
  destruct (@expectation_checks_default_register numerics strict_wavefunction
              two_register_circuit) as [Hraises _].
  destruct (Hraises (ExternalError "NotImplementedError") eq_refl)
    as [Hraise _].
  destruct (expectation_checks_default_register measured_circuit)
    as [_ Htranslated].
  destruct (Htranslated
              (commands measured_circuit
                 : QuilProgram (Wavefunction := wavefunction)) eq_refl)
    as [Hstring _].
  destruct (Hstring foreign_string) as [Hfails _].
  destruct (Hstring default_string) as [_ Hworks].
  split; [apply Hraise|]. split.
  - apply Hfails. apply Exists_cons_tl, Exists_cons_hd.
    intros [Hname _]. discriminate Hname.
  - apply Hworks. repeat constructor.
Defined.

(** C9, as stated, fails when the translation refuses the state circuit:
    the string has a qubit outside the default register, yet the call
    fails with the error of the translation, not with [ValueError]. *)
Lemma translation_error_precedes_register_check :
  ¬ (Exists (λ qp, ¬ in_default_register qp.1) foreign_string →
     ForestStateBackend.get_pauli_expectation_value
       (Wavefunction0 := strict_wavefunction) two_register_circuit
       foreign_string
     = Raise (ValueError "Non-default qubit register")).
Proof.
  intros Hclaim.
  assert (Hforeign : Exists (λ qp : Qubit * Pauli, ¬ in_default_register qp.1)
                       foreign_string).
  { apply Exists_cons_tl, Exists_cons_hd. intros [Hname _].
    discriminate Hname. }
  specialize (Hclaim Hforeign). vm_compute in Hclaim. discriminate Hclaim.
Qed.

Lemma state_two_submissions_trace :
  (ForestStateBackend.run state_two_submissions ForestStateBackend.init).1
  = [(ForestStateBackend.ProcessCircuits [unmeasured_circuit] true,
      ForestStateBackend.Handles (Ok [0]));
     (ForestStateBackend.ProcessCircuits
        [measured_circuit; unmeasured_circuit] false,
      ForestStateBackend.Handles (Ok [1; 2]))].
Proof. vm_compute. reflexivity. Qed.

Lemma state_two_submissions_issued :
  ForestStateBackend.issued_for
    (ForestStateBackend.run state_two_submissions ForestStateBackend.init).1
    2 unmeasured_circuit.
Proof.
  rewrite state_two_submissions_trace.
  exists [measured_circuit; unmeasured_circuit], false, [1; 2], 1%nat.
  split; [apply list_elem_of_further, list_elem_of_here|].
  split; reflexivity.
Qed.

(** The last handle of a session of two submissions is completed, and
    its entry holds the result computed for its circuit. *)
Lemma state_status_always_completed_witness :
  ForestStateBackend.circuit_status 2
    (ForestStateBackend.run state_two_submissions ForestStateBackend.init).2
  = (Ok (mkCircuitStatus COMPLETED),
     (ForestStateBackend.run state_two_submissions ForestStateBackend.init).2)
  ∧ ∃ entry,
      ForestStateBackend._cache
        (ForestStateBackend.run state_two_submissions
           ForestStateBackend.init).2 !! 2
      = Some entry
      ∧ ForestStateBackend.computed_entry unmeasured_circuit entry.
Proof.
  destruct (state_status_always_completed state_two_submissions
              ForestStateBackend.init 2) as (Hstatus & _ & Hentry & _).
  - exact (state_issued_for_issued _ _ _ state_two_submissions_issued).
  - split; [exact Hstatus|].
    exact (Hentry test_state_uuid4_unique unmeasured_circuit
             state_two_submissions_issued).
Defined.

(** A batch interrupted at its second circuit returns no handle, yet the
    result of its first circuit is stored and its handle completed. *)
Lemma interrupted_batch_leaves_entry :
  (ForestStateBackend.process_circuits (Wavefunction0 := strict_wavefunction)
     [unmeasured_circuit; two_register_circuit] true
     ForestStateBackend.init).1
  = Raise (ExternalError "NotImplementedError")
  ∧ (ForestStateBackend.circuit_status 0
       (ForestStateBackend.process_circuits
          (Wavefunction0 := strict_wavefunction)
          [unmeasured_circuit; two_register_circuit] true
          ForestStateBackend.init).2).1
    = Ok (mkCircuitStatus COMPLETED).
Proof. split; vm_compute; reflexivity. Qed.
End OnTestTarget.
